(** * ResumeEnhancer backend (src/Backend/main.py): a shallow embedding

    Text is modelled as Rocq [string] (byte strings, read as ASCII code
    points); Python's [str] methods and the regular expressions of the
    source are written out over ASCII.  spaCy's [nlp] pipeline, the PDF and
    DOCX parsers and the iteration order of Python sets are parameters of an
    environment record: the source delegates them to external libraries. *)

From Stdlib Require Import List String Ascii Bool Arith NArith ZArith Lia.
From Stdlib Require Import Sorting.Permutation Sorting.Sorted.
From Stdlib Require Import Reals Lra RelationClasses.
Import ListNotations.
Open Scope string_scope.

(* ------------------------------------------------------------------ *)
(** ** Characters *)

Definition code (c : ascii) : N := N_of_ascii c.

(** Python's [str.isspace] on ASCII code points (the class [\s]). *)
Definition is_space (c : ascii) : bool :=
  let n := code c in ((9 <=? n) && (n <=? 13))%N || ((28 <=? n) && (n <=? 32))%N.

Definition is_alpha_char (c : ascii) : bool :=
  let n := code c in ((65 <=? n) && (n <=? 90))%N || ((97 <=? n) && (n <=? 122))%N.

Definition is_digit (c : ascii) : bool :=
  let n := code c in ((48 <=? n) && (n <=? 57))%N.

(** The regular-expression class [\w]: letters, digits and underscore. *)
Definition is_word_char (c : ascii) : bool :=
  is_alpha_char c || is_digit c || (code c =? 95)%N.

(** [str.lower] on ASCII. *)
Definition lower_char (c : ascii) : ascii :=
  let n := code c in
  if ((65 <=? n) && (n <=? 90))%N then ascii_of_N (n + 32) else c.

Fixpoint lower (s : string) : string :=
  match s with
  | EmptyString => EmptyString
  | String c r => String (lower_char c) (lower r)
  end.

(** [str.isalpha]: non-empty and every character a letter. *)
Definition str_isalpha (s : string) : bool :=
  match s with
  | EmptyString => false
  | _ => forallb is_alpha_char (list_ascii_of_string s)
  end.


(** Text made of ASCII characters only, on which Python's Unicode-aware
    [str.lower], [\w] and [\s] agree with the definitions above. *)
Definition is_ascii (s : string) : bool :=
  forallb (fun c => (code c <? 128)%N) (list_ascii_of_string s).

(** [str.endswith(suffix)], read from the end of both strings. *)
Fixpoint is_prefix (p l : list ascii) : bool :=
  match p, l with
  | [], _ => true
  | a :: p', b :: l' => Ascii.eqb a b && is_prefix p' l'
  | _ :: _, [] => false
  end.

Definition endswith (s suffix : string) : bool :=
  is_prefix (rev (list_ascii_of_string suffix)) (rev (list_ascii_of_string s)).

(** The extension of a file name: the suffix starting at its last dot. *)
Fixpoint ext_rev (r acc : list ascii) : option (list ascii) :=
  match r with
  | [] => None
  | c :: r' => if Ascii.eqb c "." then Some (c :: acc) else ext_rev r' (c :: acc)
  end.

Definition extension (filename : string) : option string :=
  option_map string_of_list_ascii (ext_rev (rev (list_ascii_of_string filename)) []).

(* ------------------------------------------------------------------ *)
(** ** Python's ordering of strings and [sorted] *)

(** Lexicographic order on code points, as Python compares [str]. *)
Fixpoint str_ltb (s1 s2 : string) : bool :=
  match s1, s2 with
  | EmptyString, EmptyString => false
  | EmptyString, String _ _ => true
  | String _ _, EmptyString => false
  | String c1 r1, String c2 r2 =>
      (code c1 <? code c2)%N || ((code c1 =? code c2)%N && str_ltb r1 r2)
  end.

Fixpoint insert_sorted (x : string) (l : list string) : list string :=
  match l with
  | [] => [x]
  | y :: l' => if str_ltb y x then y :: insert_sorted x l' else x :: l
  end.

(** [sorted(...)]. *)
Fixpoint sorted (l : list string) : list string :=
  match l with
  | [] => []
  | x :: l' => insert_sorted x (sorted l')
  end.

Definition mem (x : string) (l : list string) : bool := existsb (String.eqb x) l.

(** Drop repeated elements (the order is irrelevant: the result is sorted). *)
Fixpoint dedup (l : list string) : list string :=
  match l with
  | [] => []
  | x :: l' => if mem x l' then dedup l' else x :: dedup l'
  end.

(* ------------------------------------------------------------------ *)
(** ** Text normalizer: [preprocess_text] *)

(** [re.sub(r'[^\w\s]', '', text)]. *)
Fixpoint strip_non_word (s : string) : string :=
  match s with
  | EmptyString => EmptyString
  | String c r =>
      if is_word_char c || is_space c then String c (strip_non_word r)
      else strip_non_word r
  end.

(** A spaCy token, with the attributes [preprocess_text] reads. *)
Record Token := mkToken {
  tok_text : string;
  lemma_ : string;
  is_stop : bool;
  is_punct : bool;
  is_alpha : bool
}.

Definition keep_token (t : Token) : bool :=
  negb (is_stop t) && negb (is_punct t) && is_alpha t.

(** [" ".join(tokens)]. *)
Fixpoint join_space (l : list string) : string :=
  match l with
  | [] => EmptyString
  | [x] => x
  | x :: l' => x ++ " " ++ join_space l'
  end.

Definition preprocess_text (nlp : string -> list Token) (text : string) : string :=
  let text := strip_non_word text in
  let doc := nlp (lower text) in
  join_space (map lemma_ (filter keep_token doc)).

(* ------------------------------------------------------------------ *)
(** ** TfidfVectorizer's analyzer and vocabulary *)

(** Default analyzer: lowercase, then [re.findall(r"(?u)\b\w\w+\b", doc)],
    i.e. every maximal run of word characters of length at least two.
    [cur] holds the current run, reversed. *)
Fixpoint find_words (s : string) (cur : list ascii) : list string :=
  let flush := if (2 <=? List.length cur)%nat then [string_of_list_ascii (rev cur)] else [] in
  match s with
  | EmptyString => flush
  | String c r =>
      if is_word_char c then find_words r (c :: cur)
      else flush ++ find_words r []
  end.

Definition analyze_doc (doc : string) : list string := find_words (lower doc) [].

(** [TfidfVectorizer().fit(docs)]: the vocabulary is the set of analyzed
    terms, [get_feature_names_out] lists it sorted; an empty vocabulary
    raises [ValueError] ([None]). *)
Definition fit_vocabulary (docs : list string) : option (list string) :=
  match sorted (dedup (List.concat (map analyze_doc docs))) with
  | [] => None
  | v => Some v
  end.

(** Python sets of strings are kept canonically as sorted duplicate-free
    lists; [intersection] and [difference] filter the left operand. *)
Definition set_intersection (a b : list string) : list string :=
  filter (fun w => mem w b) a.

Definition set_difference (a b : list string) : list string :=
  filter (fun w => negb (mem w b)) a.

(* ------------------------------------------------------------------ *)
(** ** TF-IDF vectors and cosine similarity

    Floating-point arithmetic is read as exact real arithmetic. *)

Open Scope R_scope.

Definition count_str (t : string) (l : list string) : nat :=
  List.length (filter (String.eqb t) l).

(** Raw term counts of a document over the vocabulary. *)
Definition term_counts (vocab : list string) (doc : string) : list nat :=
  map (fun t => count_str t (analyze_doc doc)) vocab.

(** Number of documents containing each vocabulary term. *)
Definition doc_freqs (vocab docs : list string) : list nat :=
  map (fun t => List.length (filter (fun d => mem t (analyze_doc d)) docs)) vocab.

(** [smooth_idf=True]: [idf = ln((1 + n) / (1 + df)) + 1]. *)
Definition idf (n df : nat) : R := ln (INR (1 + n) / INR (1 + df)) + 1.

Definition tfidf_weights (idfs : list R) (tf : list nat) : list R :=
  map (fun '(c, w) => INR c * w) (combine tf idfs).

Definition sum_sq (v : list R) : R := fold_right (fun x acc => x * x + acc) 0 v.

Definition dot (u v : list R) : R :=
  fold_right Rplus 0 (map (fun '(x, y) => x * y) (combine u v)).

(** [sklearn.preprocessing.normalize] with [norm='l2']: zero rows are
    divided by 1, i.e. left unchanged. *)
Definition l2_normalize (v : list R) : list R :=
  let n := sqrt (sum_sq v) in
  if Req_EM_T n 0 then v else map (fun x => x / n) v.

(** [TfidfVectorizer().fit_transform([d1, d2])]: the two rows. *)
Definition tfidf_fit_transform (d1 d2 : string) : option (list R * list R) :=
  match fit_vocabulary [d1; d2] with
  | None => None
  | Some vocab =>
      let idfs := map (idf 2) (doc_freqs vocab [d1; d2]) in
      Some (l2_normalize (tfidf_weights idfs (term_counts vocab d1)),
            l2_normalize (tfidf_weights idfs (term_counts vocab d2)))
  end.

(** [cosine_similarity(X, Y)] normalizes both rows again, then takes the
    dot product. *)
Definition cosine_similarity (x y : list R) : R :=
  dot (l2_normalize x) (l2_normalize y).

(** Round half to even. *)
Definition round_half_even (x : R) : Z :=
  let f := Int_part x in
  let d := x - IZR f in
  if Rlt_dec d (1 / 2) then f
  else if Rlt_dec (1 / 2) d then (f + 1)%Z
  else if Z.even f then f else (f + 1)%Z.

(** [round(x, 2)]. *)
Definition py_round2 (x : R) : R := IZR (round_half_even (x * 100)) / 100.

(** Steps 2-3 of the lexical matcher on two normalized documents:
    [None] when the joint fit raises (empty vocabulary). *)
Definition lexical_score (processed_resume processed_jd : string) : option R :=
  match tfidf_fit_transform processed_resume processed_jd with
  | None => None
  | Some (r, j) => Some (py_round2 (cosine_similarity r j * 100))
  end.

Close Scope R_scope.

(* ------------------------------------------------------------------ *)
(** ** Request handling: outcomes, a trace of steps, and the monad *)

(** A handler returns its value, raises [HTTPException(status, detail)], or
    lets another exception escape (FastAPI then answers a bare 500). *)
Inductive Outcome (A : Type) :=
| Ok (a : A)
| HttpError (status : Z) (detail : string)
| Uncaught (exn : string).
Arguments Ok {A} a.
Arguments HttpError {A} status detail.
Arguments Uncaught {A} exn.

(** The [str] values of a JSON request body: sequences of Unicode code
    points.  [json.loads] also accepts escapes of lone surrogates (code
    points 0xD800 to 0xDFFF), which therefore reach the handlers. *)
Definition ustr : Type := list N.

(** An ASCII literal as a code point sequence. *)
Definition u (s : string) : ustr := map N_of_ascii (list_ascii_of_string s).

(** [sep.join(parts)] on code point sequences. *)
Fixpoint ujoin (sep : ustr) (parts : list ustr) : ustr :=
  match parts with
  | [] => []
  | [x] => x
  | x :: parts' => (x ++ sep ++ ujoin sep parts')%list
  end.

(** Observable steps of a request, in order. *)
Inductive Event :=
| EvRead
| EvExtractPdf
| EvExtractDocx
| EvPreprocess
| EvVectorize
| EvSimilarity
| EvKeywords
| EvPrint (line : ustr).

Definition M (A : Type) : Type := list Event -> Outcome A * list Event.

Definition ret {A} (a : A) : M A := fun tr => (Ok a, tr).

Definition bind {A B} (m : M A) (k : A -> M B) : M B :=
  fun tr =>
    match m tr with
    | (Ok a, tr') => k a tr'
    | (HttpError s d, tr') => (HttpError s d, tr')
    | (Uncaught e, tr') => (Uncaught e, tr')
    end.

Notation "x <- m ;; k" := (bind m (fun x => k))
  (at level 61, m at next level, right associativity).
Notation "m ;; k" := (bind m (fun _ => k)) (at level 61, right associativity).

Definition emit (ev : Event) : M unit := fun tr => (Ok tt, (tr ++ [ev])%list).

Definition raise_http {A} (status : Z) (detail : string) : M A :=
  fun tr => (HttpError status detail, tr).

Definition raise_exn {A} (exn : string) : M A := fun tr => (Uncaught exn, tr).

(** [try: m except Exception as e: h(str(e))]; no [HTTPException] is raised
    inside the [try] blocks of the source, so only escaping exceptions
    reach the handler. *)
Definition try_except {A} (m : M A) (h : string -> M A) : M A :=
  fun tr =>
    match m tr with
    | (Uncaught e, tr') => h e tr'
    | r => r
    end.

(** A Python call that may raise, given as [inl message] or [inr value]. *)
Definition lift {A} (r : string + A) : M A :=
  match r with
  | inl e => raise_exn e
  | inr a => ret a
  end.

Definition empty_vocabulary_error : string :=
  "ValueError: empty vocabulary; perhaps the documents only contain stop words".

Definition or_empty_vocabulary {A} (o : option A) : M A :=
  match o with
  | None => raise_exn empty_vocabulary_error
  | Some a => ret a
  end.

(** The external collaborators of the handlers. *)
Record Env := mkEnv {
  (** spaCy's [nlp] on a text within [nlp.max_length] (1,000,000
      characters); on a longer text spaCy raises ValueError E088, which is
      not modelled here *)
  nlp : string -> list Token;
  (** [PyPDF2.PdfReader(stream)]: the pages' [extract_text()] results *)
  pdf_reader : list Byte.byte -> string + list (option string);
  (** [docx.Document(stream)]: the paragraphs' texts *)
  docx_document : list Byte.byte -> string + list string;
  (** [list(s)] for a set [s]: its elements in hash order *)
  set_iter : list string -> list string
}.

(** Iterating a set lists each of its elements once. *)
Definition valid_env (env : Env) : Prop :=
  forall l, Permutation (set_iter env l) l.

Definition extract_text_from_pdf (env : Env) (bytes : list Byte.byte) : string + string :=
  match pdf_reader env bytes with
  | inl e => inl e
  | inr pages =>
      inr (fold_left (fun text p => text ++ match p with Some t => t | None => "" end)
                     pages "")
  end.

Definition newline : string := String (ascii_of_nat 10) EmptyString.

Definition extract_text_from_docx (env : Env) (bytes : list Byte.byte) : string + string :=
  match docx_document env bytes with
  | inl e => inl e
  | inr paragraphs => inr (String.concat newline paragraphs)
  end.

(* ------------------------------------------------------------------ *)
(** ** [POST /analyze]: [analyze_resume] *)

Record AnalysisResult := mkAnalysisResult {
  match_score : R;
  matched_keywords : list string;
  missing_keywords : list string
}.

Definition invalid_file_type_detail : string :=
  "Invalid file type. Please upload a PDF or DOCX file.".

Definition analyze_resume (env : Env) (filename : string) (content : list Byte.byte)
    (job_description : string) : M AnalysisResult :=
  (* 1. Validate file type *)
  if negb (endswith filename ".pdf" || endswith filename ".docx") then
    raise_http 400 invalid_file_type_detail
  else
  (* 2. Extract text from the uploaded resume *)
  resume_text <-
    try_except
      (emit EvRead ;;
       if endswith filename ".pdf" then
         emit EvExtractPdf ;; lift (extract_text_from_pdf env content)
       else
         emit EvExtractDocx ;; lift (extract_text_from_docx env content))
      (fun e => raise_http 500 ("Error reading file: " ++ e)) ;;
  (* 3. Preprocess both texts *)
  emit EvPreprocess ;;
  let processed_resume := preprocess_text (nlp env) resume_text in
  let processed_jd := preprocess_text (nlp env) job_description in
  (* 4. TF-IDF over the two normalized documents *)
  emit EvVectorize ;;
  rows <- or_empty_vocabulary (tfidf_fit_transform processed_resume processed_jd) ;;
  (* 5. Cosine similarity *)
  emit EvSimilarity ;;
  let match_score := py_round2 (cosine_similarity (fst rows) (snd rows) * 100)%R in
  (* 6. Keyword analysis *)
  emit EvKeywords ;;
  jd_keywords <-
    or_empty_vocabulary (fit_vocabulary [preprocess_text (nlp env) job_description]) ;;
  resume_keywords <-
    or_empty_vocabulary (fit_vocabulary [preprocess_text (nlp env) resume_text]) ;;
  let matched := set_iter env (set_intersection jd_keywords resume_keywords) in
  let missing := set_iter env (set_difference jd_keywords resume_keywords) in
  ret (mkAnalysisResult match_score (sorted matched) (sorted missing)).

(* ------------------------------------------------------------------ *)
(** ** [POST /gemini-analyze]: [gemini_analyze_resume] *)

Record GeminiAnalysisRequest := mkGeminiAnalysisRequest {
  resume_text : ustr;
  job_description : ustr
}.

Record IdealCandidate := mkIdealCandidate {
  summary : string;
  key_skills : list string;
  key_technologies : list string;
  experience_level : string
}.

(** JSON bodies, as FastAPI serializes a response model. *)
Local Set Warnings "-register-all".
Inductive Json :=
| JString (s : string)
| JArray (items : list Json)
| JObject (fields : list (string * Json)).

Definition ideal_candidate_json (c : IdealCandidate) : Json :=
  JObject [("summary", JString (summary c));
           ("key_skills", JArray (map JString (key_skills c)));
           ("key_technologies", JArray (map JString (key_technologies c)));
           ("experience_level", JString (experience_level c))].

Definition json_keys (j : Json) : list string :=
  match j with
  | JObject fields => map fst fields
  | _ => []
  end.

Definition ideal_candidate_prompt (req : GeminiAnalysisRequest) : ustr :=
  ujoin (u newline)
    [u ""; u "    As an expert technical recruiter, analyze the following job description and create a profile of the ideal candidate. ";
     u "    Identify the most important skills, technologies, and the required level of experience.";
     u ""; u "    **Job Description:**"; u "    ---"; (u "    " ++ job_description req)%list;
     u "    ---"; u "    "].

Definition mock_ideal_candidate : IdealCandidate :=
  mkIdealCandidate
    "The ideal candidate is a mid-to-senior level Web Developer with strong proficiency in modern frontend frameworks like React and backend experience with Node.js. They should be skilled in building and consuming RESTful APIs and have a solid understanding of database management."
    ["API Design"; "Agile Methodologies"; "Problem Solving"; "UI/UX Principles"]
    ["React"; "Node.js"; "Express"; "PostgreSQL"; "Tailwind CSS"; "Docker"]
    "3-5 years".

(** Standard output is a UTF-8 text stream with the strict error handler
    (the default under a UTF-8 locale).  [print(line)] encodes the whole
    line before writing anything; the UTF-8 encoder rejects surrogate code
    points, reporting the first run of consecutive surrogates. *)
Definition is_surrogate (c : N) : bool := ((55296 <=? c) && (c <=? 57343))%N.

Fixpoint surrogate_prefix (s : ustr) : nat :=
  match s with
  | c :: r => if is_surrogate c then S (surrogate_prefix r) else 0
  | [] => 0
  end.

(** [(start, end)] of the first run of surrogates of [s], counting
    positions from [i]. *)
Fixpoint surrogate_run (s : ustr) (i : nat) : option (nat * nat) :=
  match s with
  | [] => None
  | c :: r => if is_surrogate c then Some (i, i + surrogate_prefix s)%nat else surrogate_run r (S i)
  end.

Definition digit_char (d : nat) : ascii :=
  if (d <? 10)%nat then ascii_of_nat (48 + d) else ascii_of_nat (87 + d).

(** [%zd]: a number in decimal. *)
Fixpoint decimal_aux (fuel n : nat) (acc : string) : string :=
  match fuel with
  | 0 => acc
  | S f =>
      let acc' := String (digit_char (n mod 10)) acc in
      if (n <? 10)%nat then acc' else decimal_aux f (n / 10) acc'
  end.

Definition decimal (n : nat) : string := decimal_aux (S n) n "".

(** [%04x]: four lower-case hexadecimal digits. *)
Definition hex4 (c : N) : string :=
  let n := N.to_nat c in
  String (digit_char (n / 4096 mod 16))
    (String (digit_char (n / 256 mod 16))
      (String (digit_char (n / 16 mod 16))
        (String (digit_char (n mod 16)) EmptyString))).

(** [str(UnicodeEncodeError)] for the surrogates at positions
    [start .. stop - 1] of [s]. *)
Definition encode_error_message (s : ustr) (start stop : nat) : string :=
  if (stop =? S start)%nat then
    "'utf-8' codec can't encode character '\u" ++ hex4 (nth start s 0%N) ++
    "' in position " ++ decimal start ++ ": surrogates not allowed"
  else
    "'utf-8' codec can't encode characters in position " ++ decimal start ++ "-" ++
    decimal (stop - 1) ++ ": surrogates not allowed".

Definition no_surrogates (s : ustr) : bool := forallb (fun c => negb (is_surrogate c)) s.

Definition print (line : ustr) : M unit :=
  match surrogate_run line 0 with
  | Some (start, stop) => raise_exn (encode_error_message line start stop)
  | None => emit (EvPrint line)
  end.

Definition gemini_analyze_resume (req : GeminiAnalysisRequest) : M IdealCandidate :=
  let prompt := ideal_candidate_prompt req in
  try_except
    (print (u "--- PROMPT FOR IDEAL CANDIDATE ---") ;;
     print prompt ;;
     print (u "---------------------------------") ;;
     ret mock_ideal_candidate)
    (fun e => raise_http 500 ("An error occurred during analysis: " ++ e)).

(* ------------------------------------------------------------------ *)
(** ** A concrete environment

    A small stand-in for spaCy's [en_core_web_sm]: a whitespace tokenizer,
    identity lemmas and a few of spaCy's English stop words; the document
    parsers read the uploaded bytes as the text itself; sets iterate in
    sorted order. *)

Fixpoint split_ws (s : string) (cur : list ascii) : list string :=
  let flush := match cur with [] => [] | _ => [string_of_list_ascii (rev cur)] end in
  match s with
  | EmptyString => flush
  | String c r => if is_space c then flush ++ split_ws r [] else split_ws r (c :: cur)
  end.

Definition sample_stop_words : list string :=
  ["a"; "and"; "for"; "in"; "is"; "of"; "the"; "to"; "with"].

Definition sample_token (w : string) : Token :=
  mkToken w w (mem w sample_stop_words) false (str_isalpha w).

Definition sample_nlp (s : string) : list Token := map sample_token (split_ws s []).

Definition bytes_of_string (s : string) : list Byte.byte :=
  map byte_of_ascii (list_ascii_of_string s).

Definition string_of_bytes (b : list Byte.byte) : string :=
  string_of_list_ascii (map ascii_of_byte b).

Definition sample_env : Env :=
  mkEnv sample_nlp
        (fun b => inr [Some (string_of_bytes b)])
        (fun b => inr [string_of_bytes b])
        (fun l => l).

(** The same collaborators, with sets iterating in reverse sorted order. *)
Definition sample_env_rev : Env :=
  mkEnv (nlp sample_env) (pdf_reader sample_env) (docx_document sample_env) (@rev string).

(** A PDF parser that fails on every upload. *)
Definition broken_pdf_env : Env :=
  mkEnv (nlp sample_env) (fun _ => inl "EOF marker not found")
        (docx_document sample_env) (set_iter sample_env).

(** A DOCX parser that reads two paragraphs from every upload. *)
Definition two_paragraph_env : Env :=
  mkEnv (nlp sample_env) (pdf_reader sample_env)
        (fun _ => inr ["Python developer"; "Docker and AWS"]) (set_iter sample_env).

(** Whether a handler answered normally. *)
Definition outcome_is_ok {A} (o : Outcome A) : bool :=
  match o with Ok _ => true | _ => false end.



(** The example of the specification. *)
Definition example_resume : string := "Experienced Python developer with Docker and AWS skills".
Definition example_job : string := "Looking for a Python developer familiar with Docker and Kubernetes".

Definition example_request : GeminiAnalysisRequest :=
  mkGeminiAnalysisRequest (u example_resume) (u example_job).

(** The text returned by the parser chosen from the file name. *)
Definition extracted (env : Env) (filename : string) (content : list Byte.byte) : string + string :=
  if endswith filename ".pdf" then extract_text_from_pdf env content
  else extract_text_from_docx env content.

(** Documents for the rounding argument of the lexical score: twenty and
    twenty-one occurrences of one term next to a shared second term. *)
Definition near_resume : string := join_space (repeat "python" 20 ++ ["java"])%list.
Definition near_job : string := join_space (repeat "python" 21 ++ ["java"])%list.

(** Vectors with nonnegative entries. *)
Definition nonneg (v : list R) : Prop := Forall (fun x => (0 <= x)%R) v.

(* ------------------------------------------------------------------ *)
(** ** Reading results back: [str.split] and character search *)

(** [s.split(sep)] for a one-character separator. *)
Fixpoint split_on (sep : ascii) (s : string) : list string :=
  match s with
  | EmptyString => [""]
  | String c r =>
      if Ascii.eqb c sep then "" :: split_on sep r
      else match split_on sep r with
           | [] => [String c ""]
           | w :: ws => String c w :: ws
           end
  end.

(** Whether a string contains a given character. *)
Definition has_char (sep : ascii) (s : string) : bool :=
  existsb (Ascii.eqb sep) (list_ascii_of_string s).

(* ================================================================== *)
(** * Properties *)

(* ------------------------------------------------------------------ *)
(** ** Python's string order is a strict total order *)

Lemma code_inj (a b : ascii) : code a = code b -> a = b.
Proof.
  unfold code; intros H.
  rewrite <- (ascii_N_embedding a), <- (ascii_N_embedding b), H; reflexivity.
Qed.

Lemma str_ltb_irrefl (s : string) : str_ltb s s = false.
Proof.
  induction s as [|c s IH]; simpl; [reflexivity|].
  rewrite N.ltb_irrefl, N.eqb_refl, IH; reflexivity.
Qed.

Lemma str_ltb_trans (s1 s2 s3 : string) :
  str_ltb s1 s2 = true -> str_ltb s2 s3 = true -> str_ltb s1 s3 = true.
Proof.
  revert s2 s3; induction s1 as [|c1 r1 IH]; intros [|c2 r2] [|c3 r3]; simpl;
    try discriminate; auto.
  rewrite !orb_true_iff, !andb_true_iff, !N.ltb_lt, !N.eqb_eq.
  intros [H12|[H12 R12]] [H23|[H23 R23]].
  - left; lia.
  - left; lia.
  - left; lia.
  - right; split; [lia|eauto].
Qed.

Lemma str_ltb_total (s1 s2 : string) :
  s1 <> s2 -> str_ltb s1 s2 = true \/ str_ltb s2 s1 = true.
Proof.
  revert s2; induction s1 as [|c1 r1 IH]; intros [|c2 r2] Hne; simpl; auto;
    try (exfalso; congruence).
  rewrite !orb_true_iff, !andb_true_iff, !N.ltb_lt, !N.eqb_eq.
  destruct (N.lt_trichotomy (code c1) (code c2)) as [H|[H|H]].
  - left; left; exact H.
  - assert (c1 = c2) by (apply code_inj; exact H); subst c2.
    assert (r1 <> r2) by congruence.
    destruct (IH r2) as [G|G]; auto.
  - right; left; exact H.
Qed.

Lemma str_ltb_asym (s1 s2 : string) : str_ltb s1 s2 = true -> str_ltb s2 s1 = false.
Proof.
  intros H; destruct (str_ltb s2 s1) eqn:E; [|reflexivity].
  pose proof (str_ltb_trans _ _ _ H E) as G; rewrite str_ltb_irrefl in G; discriminate.
Qed.

(** [str_le a b]: [a] is not after [b]. *)
Definition str_le (a b : string) : Prop := str_ltb b a = false.
Definition str_lt (a b : string) : Prop := str_ltb a b = true.

Lemma str_le_trans (a b c : string) : str_le a b -> str_le b c -> str_le a c.
Proof.
  unfold str_le; intros Hab Hbc.
  destruct (str_ltb c a) eqn:E; [|reflexivity].
  destruct (String.eqb_spec a b) as [->|Nab].
  - congruence.
  - destruct (str_ltb_total _ _ Nab) as [G|G]; [|congruence].
    destruct (str_ltb_total b c) as [G'|G'].
    + intros ->; rewrite E in Hab; discriminate.
    + rewrite (str_ltb_trans _ _ _ E G) in Hbc; discriminate.
    + congruence.
Qed.

Lemma str_le_antisym (a b : string) : str_le a b -> str_le b a -> a = b.
Proof.
  unfold str_le; intros H1 H2.
  destruct (String.eqb_spec a b) as [E|N]; [exact E|].
  destruct (str_ltb_total _ _ N); congruence.
Qed.

(* ------------------------------------------------------------------ *)
(** ** [sorted] sorts, and its result depends only on the multiset *)

#[local] Instance str_le_Transitive : Transitive str_le.
Proof. intros a b c; apply str_le_trans. Qed.

Lemma insert_sorted_perm (x : string) (l : list string) :
  Permutation (insert_sorted x l) (x :: l).
Proof.
  induction l as [|y l IH]; simpl; [reflexivity|].
  destruct (str_ltb y x); [|reflexivity].
  rewrite IH; apply perm_swap.
Qed.

Lemma sorted_perm (l : list string) : Permutation (sorted l) l.
Proof.
  induction l as [|x l IH]; simpl; [reflexivity|].
  rewrite insert_sorted_perm, IH; reflexivity.
Qed.

Lemma HdRel_insert_sorted (y x : string) (l : list string) :
  str_le y x -> HdRel str_le y l -> HdRel str_le y (insert_sorted x l).
Proof.
  intros Hyx Hl; destruct l as [|z l]; simpl.
  - constructor; exact Hyx.
  - inversion Hl; subst.
    destruct (str_ltb z x); constructor; assumption.
Qed.

Lemma insert_sorted_Sorted (x : string) (l : list string) :
  Sorted str_le l -> Sorted str_le (insert_sorted x l).
Proof.
  induction l as [|y l IH]; simpl; intros H.
  - repeat constructor.
  - inversion H as [|? ? Hs Hhd]; subst.
    destruct (str_ltb y x) eqn:E.
    + constructor; [auto|].
      apply HdRel_insert_sorted; [apply str_ltb_asym; exact E|exact Hhd].
    + constructor; [exact H|constructor; exact E].
Qed.

Lemma sorted_Sorted (l : list string) : Sorted str_le (sorted l).
Proof.
  induction l as [|x l IH]; simpl; [constructor|].
  apply insert_sorted_Sorted; exact IH.
Qed.

Lemma Sorted_perm_unique (l1 l2 : list string) :
  Sorted str_le l1 -> Sorted str_le l2 -> Permutation l1 l2 -> l1 = l2.
Proof.
  intros S1 S2; apply Sorted_StronglySorted in S1, S2; try exact str_le_Transitive.
  revert l2 S2; induction S1 as [|a l1 S1 IH F1]; intros l2 S2 P.
  - symmetry; apply Permutation_nil; exact P.
  - destruct S2 as [|b l2 S2 F2].
    + apply Permutation_sym, Permutation_nil in P; discriminate.
    + assert (a = b) as <-.
      { assert (Ha : In a (b :: l2)) by (apply (Permutation_in a P); left; reflexivity).
        assert (Hb : In b (a :: l1)) by (apply (Permutation_in b (Permutation_sym P)); left; reflexivity).
        destruct Ha as [->|Ha]; [reflexivity|].
        destruct Hb as [->|Hb]; [reflexivity|].
        apply str_le_antisym.
        - rewrite Forall_forall in F1; apply F1; exact Hb.
        - rewrite Forall_forall in F2; apply F2; exact Ha. }
      f_equal; apply IH; [exact S2|].
      apply Permutation_cons_inv in P; exact P.
Qed.

(** Sorting forgets the order of its input. *)
Lemma sorted_perm_eq (l1 l2 : list string) : Permutation l1 l2 -> sorted l1 = sorted l2.
Proof.
  intros P; apply Sorted_perm_unique; try apply sorted_Sorted.
  rewrite !sorted_perm; exact P.
Qed.

(** Without duplicates, the sorted list is strictly increasing. *)
Lemma sorted_strict (l : list string) : NoDup l -> StronglySorted str_lt (sorted l).
Proof.
  intros Hnd.
  assert (Hnd' : NoDup (sorted l)) by (eapply Permutation_NoDup; [symmetry; apply sorted_perm|exact Hnd]).
  pose proof (sorted_Sorted l) as S; clear Hnd; revert Hnd' S; generalize (sorted l) as m.
  intros m Hnd S; apply Sorted_StronglySorted.
  - intros a b c; apply str_ltb_trans.
  - induction S as [|a m S IH Hhd]; constructor.
    + apply IH; inversion Hnd; assumption.
    + destruct Hhd as [|b m' Hab]; constructor.
      inversion Hnd as [|? ? Hnin]; subst.
      destruct (String.eqb_spec a b) as [->|N].
      * exfalso; apply Hnin; left; reflexivity.
      * destruct (str_ltb_total _ _ N) as [G|G]; [exact G|].
        unfold str_le in Hab; congruence.
Qed.

(* ------------------------------------------------------------------ *)
(** ** Sets and vocabularies *)

Lemma perm_In_iff {A} (x : A) (l m : list A) : Permutation l m -> In x l <-> In x m.
Proof. intros P; split; apply Permutation_in; [exact P|symmetry; exact P]. Qed.

Lemma mem_In (x : string) (l : list string) : mem x l = true <-> In x l.
Proof.
  unfold mem; rewrite existsb_exists; split.
  - intros (y & Hy & E); apply String.eqb_eq in E; subst; exact Hy.
  - intros H; exists x; split; [exact H|apply String.eqb_refl].
Qed.

Lemma dedup_In (x : string) (l : list string) : In x (dedup l) <-> In x l.
Proof.
  induction l as [|y l IH]; simpl; [tauto|].
  destruct (mem y l) eqn:E; simpl; rewrite IH; [|tauto].
  apply mem_In in E; split; [tauto|intros [->|H]; auto].
Qed.

Lemma dedup_NoDup (l : list string) : NoDup (dedup l).
Proof.
  induction l as [|y l IH]; simpl; [constructor|].
  destruct (mem y l) eqn:E; [exact IH|].
  constructor; [|exact IH].
  rewrite dedup_In, <- mem_In, E; discriminate.
Qed.

Lemma fit_vocabulary_Some (docs : list string) (v : list string) :
  fit_vocabulary docs = Some v ->
  v = sorted (dedup (List.concat (map analyze_doc docs))) /\
  (forall w, In w v <-> In w (List.concat (map analyze_doc docs))) /\ NoDup v.
Proof.
  unfold fit_vocabulary.
  destruct (sorted (dedup (List.concat (map analyze_doc docs)))) as [|x l] eqn:E;
    intros H; inversion H; subst; clear H.
  rewrite <- E; split; [reflexivity|split].
  - intros w; rewrite (perm_In_iff _ _ _ (sorted_perm _)), dedup_In; reflexivity.
  - eapply Permutation_NoDup; [symmetry; apply sorted_perm|apply dedup_NoDup].
Qed.

Lemma fit_vocabulary_None (docs : list string) :
  fit_vocabulary docs = None <-> List.concat (map analyze_doc docs) = [].
Proof.
  unfold fit_vocabulary.
  pose proof (sorted_perm (dedup (List.concat (map analyze_doc docs)))) as P.
  destruct (sorted (dedup (List.concat (map analyze_doc docs)))) as [|x l] eqn:E.
  - split; [intros _|reflexivity].
    destruct (List.concat (map analyze_doc docs)) as [|y m] eqn:F; [reflexivity|].
    exfalso; apply Permutation_nil in P.
    assert (In y (dedup (y :: m))) by (apply dedup_In; left; reflexivity).
    rewrite P in H; exact H.
  - split; [discriminate|intros F].
    assert (In x (x :: l)) as H by (left; reflexivity).
    rewrite (perm_In_iff _ _ _ P), dedup_In, F in H; destruct H.
Qed.

Lemma set_intersection_In (w : string) (a b : list string) :
  In w (set_intersection a b) <-> In w a /\ In w b.
Proof. unfold set_intersection; rewrite filter_In, mem_In; reflexivity. Qed.

Lemma set_difference_In (w : string) (a b : list string) :
  In w (set_difference a b) <-> In w a /\ ~ In w b.
Proof.
  unfold set_difference; rewrite filter_In.
  destruct (mem w b) eqn:E; simpl.
  - apply mem_In in E; split; intros [_ H]; [discriminate|contradiction].
  - split; intros [H1 H2]; split; auto.
    intros Hin; apply mem_In in Hin; congruence.
Qed.

(* ------------------------------------------------------------------ *)
(** ** Unfolding the [/analyze] handler *)

Ltac split_matches :=
  repeat match goal with
  | H : context [match ?x with _ => _ end] |- _ =>
      lazymatch x with
      | context [match _ with _ => _ end] => fail
      | _ => destruct x eqn:?
      end
  end.

Lemma analyze_resume_Ok (env : Env) (fn : string) (c : list Byte.byte) (jd : string)
    (tr0 tr : list Event) (res : AnalysisResult) :
  analyze_resume env fn c jd tr0 = (Ok res, tr) ->
  exists text rows jv rv,
    extracted env fn c = inr text /\
    tfidf_fit_transform (preprocess_text (nlp env) text) (preprocess_text (nlp env) jd) = Some rows /\
    fit_vocabulary [preprocess_text (nlp env) jd] = Some jv /\
    fit_vocabulary [preprocess_text (nlp env) text] = Some rv /\
    res = mkAnalysisResult (py_round2 (cosine_similarity (fst rows) (snd rows) * 100)%R)
                           (sorted (set_iter env (set_intersection jv rv)))
                           (sorted (set_iter env (set_difference jv rv))).
Proof.
  unfold analyze_resume, extracted, bind, try_except, emit, lift, ret, raise_http,
    raise_exn, or_empty_vocabulary.
  destruct (endswith fn ".pdf") eqn:Hpdf; destruct (endswith fn ".docx") eqn:Hdocx;
    simpl; intros H; split_matches; try discriminate; unfold ret in *;
    repeat match goal with E : (_, _) = (_, _) |- _ => inversion E; subst; clear E end;
    eexists _, _, _, _; repeat split; eassumption.
Qed.

Lemma tfidf_fit_transform_vocabulary (d1 d2 : string) (rows : list R * list R) :
  tfidf_fit_transform d1 d2 = Some rows -> exists v, fit_vocabulary [d1; d2] = Some v.
Proof.
  unfold tfidf_fit_transform; destruct (fit_vocabulary [d1; d2]) as [v|]; [|discriminate].
  intros _; exists v; reflexivity.
Qed.

Lemma fit_vocabulary_single (d : string) (v : list string) (w : string) :
  fit_vocabulary [d] = Some v -> In w v <-> In w (analyze_doc d).
Proof.
  intros H; apply fit_vocabulary_Some in H as (_ & H & _).
  rewrite H; simpl; rewrite app_nil_r; reflexivity.
Qed.

(** What a successful [/analyze] returns as keywords, element-wise. *)
Lemma analyze_resume_keywords (env : Env) (fn : string) (c : list Byte.byte) (jd : string)
    (tr0 tr : list Event) (res : AnalysisResult) :
  valid_env env ->
  analyze_resume env fn c jd tr0 = (Ok res, tr) ->
  exists text jv rv,
    extracted env fn c = inr text /\
    (exists v, fit_vocabulary [preprocess_text (nlp env) text;
                               preprocess_text (nlp env) jd] = Some v) /\
    fit_vocabulary [preprocess_text (nlp env) jd] = Some jv /\
    fit_vocabulary [preprocess_text (nlp env) text] = Some rv /\
    matched_keywords res = sorted (set_iter env (set_intersection jv rv)) /\
    missing_keywords res = sorted (set_iter env (set_difference jv rv)) /\
    (forall w, In w (matched_keywords res) <-> In w jv /\ In w rv) /\
    (forall w, In w (missing_keywords res) <-> In w jv /\ ~ In w rv).
Proof.
  intros Hv H.
  apply analyze_resume_Ok in H as (text & rows & jv & rv & Hx & Hrows & Hjv & Hrv & ->).
  exists text, jv, rv; simpl.
  split; [exact Hx|]; split; [eapply tfidf_fit_transform_vocabulary; exact Hrows|].
  split; [exact Hjv|]; split; [exact Hrv|]; split; [reflexivity|]; split; [reflexivity|].
  split; intros w; rewrite (perm_In_iff _ _ _ (sorted_perm _)), (perm_In_iff _ _ _ (Hv _)).
  - apply set_intersection_In.
  - apply set_difference_In.
Qed.

Lemma sample_env_valid : valid_env sample_env.
Proof. intros l; apply Permutation_refl. Qed.

Lemma analyze_resume_keywords_NoDup (env : Env) (jv rv : list string) :
  valid_env env -> NoDup jv ->
  NoDup (set_iter env (set_intersection jv rv)) /\ NoDup (set_iter env (set_difference jv rv)).
Proof.
  intros Hv Hnd; split; (eapply Permutation_NoDup; [symmetry; apply Hv|apply NoDup_filter; exact Hnd]).
Qed.

(* ------------------------------------------------------------------ *)
(** ** C3: the keyword partition of [/analyze] *)

(** C3: on every successful [/analyze], matched_keywords is the job
    vocabulary intersected with the resume vocabulary, missing_keywords is
    the job vocabulary minus the resume vocabulary, the two are disjoint,
    together they are the job vocabulary, and both are strictly sorted. *)
Theorem analyze_keywords_partition (env : Env) (fn : string) (c : list Byte.byte)
    (jd : string) (tr0 tr : list Event) (res : AnalysisResult) :
  valid_env env ->
  analyze_resume env fn c jd tr0 = (Ok res, tr) ->
  exists jv rv,
    fit_vocabulary [preprocess_text (nlp env) jd] = Some jv /\
    (exists text, extracted env fn c = inr text /\
                  fit_vocabulary [preprocess_text (nlp env) text] = Some rv) /\
    (forall w, In w (matched_keywords res) <-> In w jv /\ In w rv) /\
    (forall w, In w (missing_keywords res) <-> In w jv /\ ~ In w rv) /\
    (forall w, In w (matched_keywords res) -> ~ In w (missing_keywords res)) /\
    (forall w, In w jv <-> In w (matched_keywords res) \/ In w (missing_keywords res)) /\
    StronglySorted str_lt (matched_keywords res) /\
    StronglySorted str_lt (missing_keywords res).
Proof.
  intros Hv H.
  destruct (analyze_resume_keywords env fn c jd tr0 tr res Hv H)
    as (text & jv & rv & Hx & _ & Hjv & Hrv & Em & Ex & Hm & Hx').
  exists jv, rv.
  pose proof (proj2 (proj2 (fit_vocabulary_Some _ _ Hjv))) as Hnd.
  destruct (analyze_resume_keywords_NoDup env jv rv Hv Hnd) as [Nm Nx].
  split; [exact Hjv|]; split; [exists text; split; assumption|].
  split; [exact Hm|]; split; [exact Hx'|].
  split; [intros w H1 H2; apply Hm in H1; apply Hx' in H2; tauto|].
  split.
  - intros w; rewrite Hm, Hx'.
    destruct (in_dec string_dec w rv); tauto.
  - rewrite Em, Ex; split; apply sorted_strict; assumption.
Qed.

Lemma analyze_keywords_partition_witness :
  exists res tr,
    analyze_resume sample_env "cv.pdf" (bytes_of_string example_resume) example_job [] = (Ok res, tr) /\
    exists jv rv,
    fit_vocabulary [preprocess_text (nlp sample_env) example_job] = Some jv /\
    (exists text, extracted sample_env "cv.pdf" (bytes_of_string example_resume) = inr text /\
                  fit_vocabulary [preprocess_text (nlp sample_env) text] = Some rv) /\
    (forall w, In w (matched_keywords res) <-> In w jv /\ In w rv) /\
    (forall w, In w (missing_keywords res) <-> In w jv /\ ~ In w rv) /\
    (forall w, In w (matched_keywords res) -> ~ In w (missing_keywords res)) /\
    (forall w, In w jv <-> In w (matched_keywords res) \/ In w (missing_keywords res)) /\
    StronglySorted str_lt (matched_keywords res) /\
    StronglySorted str_lt (missing_keywords res).
Proof.
  assert (Hok : outcome_is_ok (fst (analyze_resume sample_env "cv.pdf"
                    (bytes_of_string example_resume) example_job [])) = true)
    by (vm_compute; reflexivity).
  destruct (analyze_resume sample_env "cv.pdf" (bytes_of_string example_resume) example_job [])
    as [[res|s d|e] tr] eqn:E; simpl in Hok; try discriminate Hok.
  exists res, tr; split; [reflexivity|].
  exact (analyze_keywords_partition sample_env _ _ _ _ _ _ sample_env_valid E).
Defined.

(* ------------------------------------------------------------------ *)
(** ** C1: the vocabulary basis of the keyword sets *)

(** C1 (as the code does it): the keyword vocabularies of [/analyze] are fit
    independently on the normalized ([preprocess_text]) job description and
    the normalized resume text: matched and missing keywords together are
    exactly the terms of the normalized job description, matched ones occur
    in the normalized resume, missing ones do not, and all of them belong to
    the vocabulary of the joint fit used for the score. *)
Theorem analyze_keywords_from_normalized_text (env : Env) (fn : string)
    (c : list Byte.byte) (jd : string) (tr0 tr : list Event) (res : AnalysisResult) :
  valid_env env ->
  analyze_resume env fn c jd tr0 = (Ok res, tr) ->
  exists text,
    extracted env fn c = inr text /\
    (forall w, In w (matched_keywords res) \/ In w (missing_keywords res) <->
               In w (analyze_doc (preprocess_text (nlp env) jd))) /\
    (forall w, In w (matched_keywords res) ->
               In w (analyze_doc (preprocess_text (nlp env) text))) /\
    (forall w, In w (missing_keywords res) ->
               ~ In w (analyze_doc (preprocess_text (nlp env) text))) /\
    exists v, fit_vocabulary [preprocess_text (nlp env) text;
                              preprocess_text (nlp env) jd] = Some v /\
              (forall w, In w (matched_keywords res) \/ In w (missing_keywords res) -> In w v).
Proof.
  intros Hv H.
  destruct (analyze_resume_keywords env fn c jd tr0 tr res Hv H)
    as (text & jv & rv & Hx & [v Hj] & Hjv & Hrv & _ & _ & Hm & Hx').
  assert (Jd : forall w, In w (matched_keywords res) \/ In w (missing_keywords res) <->
                         In w (analyze_doc (preprocess_text (nlp env) jd))).
  { intros w; rewrite Hm, Hx', <- (fit_vocabulary_single _ _ w Hjv).
    destruct (in_dec string_dec w rv); tauto. }
  exists text; split; [exact Hx|]; split; [exact Jd|].
  split; [intros w Hw; apply Hm in Hw; apply (fit_vocabulary_single _ _ w Hrv); tauto|].
  split; [intros w Hw; apply Hx' in Hw; rewrite <- (fit_vocabulary_single _ _ w Hrv); tauto|].
  exists v; split; [exact Hj|].
  intros w Hw; apply Jd in Hw.
  apply fit_vocabulary_Some in Hj as (_ & Hj & _); apply Hj; simpl.
  apply in_or_app; right; apply in_or_app; left; exact Hw.
Qed.

Lemma analyze_keywords_from_normalized_text_witness :
  exists res tr,
    analyze_resume sample_env "cv.pdf" (bytes_of_string example_resume) example_job [] = (Ok res, tr) /\
    exists text,
    extracted sample_env "cv.pdf" (bytes_of_string example_resume) = inr text /\
    (forall w, In w (matched_keywords res) \/ In w (missing_keywords res) <->
               In w (analyze_doc (preprocess_text (nlp sample_env) example_job))) /\
    (forall w, In w (matched_keywords res) ->
               In w (analyze_doc (preprocess_text (nlp sample_env) text))) /\
    (forall w, In w (missing_keywords res) ->
               ~ In w (analyze_doc (preprocess_text (nlp sample_env) text))) /\
    exists v, fit_vocabulary [preprocess_text (nlp sample_env) text;
                              preprocess_text (nlp sample_env) example_job] = Some v /\
              (forall w, In w (matched_keywords res) \/ In w (missing_keywords res) -> In w v).
Proof.
  assert (Hok : outcome_is_ok (fst (analyze_resume sample_env "cv.pdf"
                    (bytes_of_string example_resume) example_job [])) = true)
    by (vm_compute; reflexivity).
  destruct (analyze_resume sample_env "cv.pdf" (bytes_of_string example_resume) example_job [])
    as [[res|s d|e] tr] eqn:E; simpl in Hok; try discriminate Hok.
  exists res, tr; split; [reflexivity|].
  exact (analyze_keywords_from_normalized_text sample_env _ _ _ _ _ _ sample_env_valid E).
Defined.

(** C1 fails as stated: the raw job description "The Python developer" has
    the vocabulary {developer, python, the}, but "the" (a stop word removed
    by normalization) is neither matched nor missing. *)
Lemma analyze_keywords_not_raw_vocabulary :
  fit_vocabulary ["The Python developer"] = Some ["developer"; "python"; "the"] /\
  match fst (analyze_resume sample_env "cv.pdf" (bytes_of_string "Python")
                            "The Python developer" []) with
  | Ok r => matched_keywords r = ["python"] /\ missing_keywords r = ["developer"] /\
            ~ In "the" (matched_keywords r ++ missing_keywords r)
  | _ => False
  end.
Proof.
  split; [vm_compute; reflexivity|].
  vm_compute; split; [reflexivity|split; [reflexivity|]].
  intros [H|[H|H]]; [discriminate|discriminate|exact H].
Qed.

(* ------------------------------------------------------------------ *)
(** ** C4: unsupported extensions are rejected first *)

Lemma is_prefix_app (p l : list ascii) : is_prefix p l = true -> exists r, l = (p ++ r)%list.
Proof.
  revert l; induction p as [|a p IH]; intros [|b l]; simpl; try discriminate.
  - intros _; exists []; reflexivity.
  - intros _; exists (b :: l); reflexivity.
  - rewrite andb_true_iff, Ascii.eqb_eq; intros [-> H].
    destruct (IH l H) as [r ->]; exists r; reflexivity.
Qed.

Lemma endswith_pdf_extension (fn : string) :
  endswith fn ".pdf" = true -> extension fn = Some ".pdf".
Proof.
  unfold endswith, extension; intros H; apply is_prefix_app in H as [r Hr].
  rewrite Hr; reflexivity.
Qed.

Lemma endswith_docx_extension (fn : string) :
  endswith fn ".docx" = true -> extension fn = Some ".docx".
Proof.
  unfold endswith, extension; intros H; apply is_prefix_app in H as [r Hr].
  rewrite Hr; reflexivity.
Qed.

(** C4: a file whose extension is neither .pdf nor .docx gets HTTP 400
    from [/analyze], whatever its bytes and whatever the parsers would do;
    the trace is untouched: nothing is read, extracted or parsed. *)
Theorem analyze_rejects_other_extensions (env : Env) (fn : string)
    (c : list Byte.byte) (jd : string) (tr0 : list Event) :
  extension fn <> Some ".pdf" -> extension fn <> Some ".docx" ->
  analyze_resume env fn c jd tr0 = (HttpError 400 invalid_file_type_detail, tr0).
Proof.
  intros Hp Hd; unfold analyze_resume.
  destruct (endswith fn ".pdf") eqn:Ep; [apply endswith_pdf_extension in Ep; contradiction|].
  destruct (endswith fn ".docx") eqn:Ed; [apply endswith_docx_extension in Ed; contradiction|].
  reflexivity.
Qed.

Lemma analyze_rejects_other_extensions_witness :
  extension "resume.txt" <> Some ".pdf" /\ extension "resume.txt" <> Some ".docx" /\
  analyze_resume sample_env "resume.txt" (bytes_of_string "%PDF-1.4") example_job []
  = (HttpError 400 invalid_file_type_detail, []).
Proof.
  split; [vm_compute; discriminate|split; [vm_compute; discriminate|]].
  apply analyze_rejects_other_extensions; vm_compute; discriminate.
Defined.

(* ------------------------------------------------------------------ *)
(** ** C5, C6: extraction and vectorization failures *)

Ltac run_handler :=
  cbn -[tfidf_fit_transform fit_vocabulary preprocess_text py_round2 cosine_similarity].

(** C5 (as the code does it): for an accepted file, a parser that raises
    gives HTTP 500 "Error reading file: ..." before any normalization or
    scoring; any text the parser returns, empty or whitespace-only
    included, is not rejected: the handler goes on to normalization, and
    no later step answers an HTTPException (a later failure is an
    uncaught exception). *)
Theorem analyze_extraction_outcomes (env : Env) (fn : string) (c : list Byte.byte)
    (jd : string) (tr0 : list Event) :
  endswith fn ".pdf" = true \/ endswith fn ".docx" = true ->
  (forall e, extracted env fn c = inl e ->
     exists added,
       analyze_resume env fn c jd tr0
       = (HttpError 500 ("Error reading file: " ++ e), (tr0 ++ added)%list) /\
       ~ In EvPreprocess added /\ ~ In EvVectorize added) /\
  (forall text, extracted env fn c = inr text ->
     exists o added, analyze_resume env fn c jd tr0 = (o, (tr0 ++ added)%list) /\
                     In EvPreprocess added /\ forall st d, o <> HttpError st d).
Proof.
  intros Hacc; unfold analyze_resume, extracted.
  assert (Hok : (endswith fn ".pdf" || endswith fn ".docx")%bool = true)
    by (destruct Hacc as [H|H]; rewrite H; [reflexivity|apply orb_true_r]).
  rewrite Hok; simpl negb; cbv iota.
  unfold bind, try_except, emit, lift, ret, raise_http, raise_exn, or_empty_vocabulary.
  split.
  - intros e Hx; destruct (endswith fn ".pdf"); rewrite Hx; run_handler;
      rewrite <- !app_assoc; simpl;
      eexists; (split; [reflexivity|]); simpl; intuition discriminate.
  - intros text Hx; destruct (endswith fn ".pdf"); rewrite Hx; run_handler;
      destruct (tfidf_fit_transform _ _); run_handler;
      try destruct (fit_vocabulary [preprocess_text (nlp env) jd]); run_handler;
      try destruct (fit_vocabulary [preprocess_text (nlp env) text]); run_handler;
      rewrite <- !app_assoc; simpl;
      eexists _, _; (split; [reflexivity|]); simpl;
      (split; [tauto|intros st d; discriminate]).
Qed.

Lemma analyze_extraction_outcomes_witness :
  ((endswith "cv.pdf" ".pdf" = true \/ endswith "cv.pdf" ".docx" = true) /\
   extracted broken_pdf_env "cv.pdf" (bytes_of_string "%PDF") = inl "EOF marker not found" /\
   exists added,
     analyze_resume broken_pdf_env "cv.pdf" (bytes_of_string "%PDF") example_job []
     = (HttpError 500 ("Error reading file: " ++ "EOF marker not found"), ([] ++ added)%list) /\
     ~ In EvPreprocess added /\ ~ In EvVectorize added) /\
  ((endswith "cv.pdf" ".pdf" = true \/ endswith "cv.pdf" ".docx" = true) /\
   extracted sample_env "cv.pdf" (bytes_of_string "   ") = inr "   " /\
   exists o added,
     analyze_resume sample_env "cv.pdf" (bytes_of_string "   ") example_job []
     = (o, ([] ++ added)%list) /\
     In EvPreprocess added /\ forall st d, o <> HttpError st d).
Proof.
  split.
  - split; [left; reflexivity|split; [reflexivity|]].
    apply (proj1 (analyze_extraction_outcomes broken_pdf_env "cv.pdf" (bytes_of_string "%PDF") example_job []
                   (or_introl eq_refl)) "EOF marker not found"); reflexivity.
  - split; [left; reflexivity|split; [reflexivity|]].
    apply (proj2 (analyze_extraction_outcomes sample_env "cv.pdf" (bytes_of_string "   ") example_job []
                   (or_introl eq_refl)) "   "); reflexivity.
Defined.

(** C5 fails as stated: a PDF whose extracted text is whitespace is not
    rejected at extraction; the request runs normalization, vectorization
    and the similarity step, then dies on an empty resume vocabulary. *)
Lemma analyze_whitespace_text_reaches_scoring :
  extracted sample_env "cv.pdf" (bytes_of_string "   ") = inr "   " /\
  analyze_resume sample_env "cv.pdf" (bytes_of_string "   ") example_job []
  = (Uncaught empty_vocabulary_error,
     [EvRead; EvExtractPdf; EvPreprocess; EvVectorize; EvSimilarity; EvKeywords]).
Proof. split; vm_compute; reflexivity. Qed.

(** C6 (as the code does it): when either normalized document has an empty
    vocabulary, [analyze_resume] lets sklearn's [ValueError] escape instead
    of raising a structured [HTTPException]. *)
Theorem analyze_empty_vocabulary_uncaught (env : Env) (fn : string) (c : list Byte.byte)
    (jd text : string) (tr0 : list Event) :
  endswith fn ".pdf" = true \/ endswith fn ".docx" = true ->
  extracted env fn c = inr text ->
  fit_vocabulary [preprocess_text (nlp env) jd] = None \/
  fit_vocabulary [preprocess_text (nlp env) text] = None ->
  exists tr, analyze_resume env fn c jd tr0 = (Uncaught empty_vocabulary_error, tr).
Proof.
  intros Hacc Hx Hnone; unfold analyze_resume; unfold extracted in Hx.
  assert (Hok : (endswith fn ".pdf" || endswith fn ".docx")%bool = true)
    by (destruct Hacc as [H|H]; rewrite H; [reflexivity|apply orb_true_r]).
  rewrite Hok; simpl negb; cbv iota.
  unfold bind, try_except, emit, lift, ret, raise_http, raise_exn, or_empty_vocabulary.
  destruct (endswith fn ".pdf"); rewrite Hx; run_handler;
    destruct (tfidf_fit_transform _ _); run_handler; try (eexists; reflexivity);
    destruct Hnone as [Hn|Hn]; rewrite Hn; run_handler; try (eexists; reflexivity);
    destruct (fit_vocabulary [preprocess_text (nlp env) jd]); run_handler;
    eexists; reflexivity.
Qed.

Lemma analyze_empty_vocabulary_uncaught_witness :
  exists tr,
    analyze_resume sample_env "cv.pdf" (bytes_of_string "Python developer") "the and of" []
    = (Uncaught empty_vocabulary_error, tr).
Proof.
  apply (analyze_empty_vocabulary_uncaught sample_env "cv.pdf" _ "the and of" "Python developer").
  - left; vm_compute; reflexivity.
  - vm_compute; reflexivity.
  - left; vm_compute; reflexivity.
Defined.

(* ------------------------------------------------------------------ *)
(** ** C9: determinism of [/analyze] *)

(** C9: two runs of [/analyze] on the same file and job description, with
    the same language model and parsers, return the same outcome (score and
    keyword lists) and the same trace, even when the two runs iterate Python
    sets in different (hash-seed dependent) orders. *)
Theorem analyze_resume_deterministic (env1 env2 : Env) (fn : string)
    (c : list Byte.byte) (jd : string) (tr0 : list Event) :
  valid_env env1 -> valid_env env2 ->
  nlp env1 = nlp env2 ->
  pdf_reader env1 = pdf_reader env2 ->
  docx_document env1 = docx_document env2 ->
  analyze_resume env1 fn c jd tr0 = analyze_resume env2 fn c jd tr0.
Proof.
  destruct env1 as [n p d s1], env2 as [n' p' d' s2]; simpl; intros V1 V2 -> -> ->.
  unfold analyze_resume, extracted, bind, try_except, emit, lift, ret, raise_http,
    raise_exn, or_empty_vocabulary, extract_text_from_pdf, extract_text_from_docx;
  cbn [nlp pdf_reader docx_document set_iter].
  repeat match goal with
  | |- context [match ?x with _ => _ end] => destruct x
  end; try reflexivity.
  do 3 f_equal; apply sorted_perm_eq; rewrite (V1 _), (V2 _); reflexivity.
Qed.

Lemma analyze_resume_deterministic_witness :
  valid_env sample_env /\ valid_env sample_env_rev /\
  analyze_resume sample_env "cv.pdf" (bytes_of_string example_resume) example_job []
  = analyze_resume sample_env_rev "cv.pdf" (bytes_of_string example_resume) example_job [].
Proof.
  assert (V : valid_env sample_env_rev) by (intros l; apply Permutation_sym, Permutation_rev).
  split; [exact sample_env_valid|split; [exact V|]].
  apply analyze_resume_deterministic; [exact sample_env_valid|exact V|reflexivity..].
Defined.

(* ------------------------------------------------------------------ *)
(** ** C7, C8, C10: [/gemini-analyze] *)

Lemma surrogate_run_None (s : ustr) (i : nat) :
  surrogate_run s i = None <-> no_surrogates s = true.
Proof.
  revert i; induction s as [|c s IH]; intros i; simpl; [tauto|].
  unfold no_surrogates in *; simpl.
  destruct (is_surrogate c); simpl; [split; discriminate|apply IH].
Qed.

Lemma no_surrogates_app (a b : ustr) :
  no_surrogates (a ++ b)%list = (no_surrogates a && no_surrogates b)%bool.
Proof. unfold no_surrogates; apply forallb_app. Qed.

(** The prompt is a fixed ASCII text around the job description. *)
Lemma ideal_candidate_prompt_split :
  exists head tail, no_surrogates head = true /\ no_surrogates tail = true /\
    forall req, ideal_candidate_prompt req = (head ++ job_description req ++ tail)%list.
Proof.
  exists (ujoin (u newline)
       [u ""; u "    As an expert technical recruiter, analyze the following job description and create a profile of the ideal candidate. "; u "    Identify the most important skills, technologies, and the required level of experience."; u ""; u "    **Job Description:**"; u "    ---"; u "    "]),
    (u newline ++ u "    ---" ++ u newline ++ u "    ")%list.
  split; [vm_compute; reflexivity|split; [vm_compute; reflexivity|]].
  intros req; reflexivity.
Qed.

Lemma prompt_no_surrogates (req : GeminiAnalysisRequest) :
  no_surrogates (ideal_candidate_prompt req) = no_surrogates (job_description req).
Proof.
  destruct ideal_candidate_prompt_split as (head & tail & Hh & Ht & E).
  rewrite E, !no_surrogates_app, Hh, Ht, andb_true_r; reflexivity.
Qed.

Lemma gemini_analyze_resume_run (req : GeminiAnalysisRequest) (tr0 : list Event) :
  (no_surrogates (job_description req) = true /\
   gemini_analyze_resume req tr0 =
   (Ok mock_ideal_candidate,
    tr0 ++ [EvPrint (u "--- PROMPT FOR IDEAL CANDIDATE ---");
            EvPrint (ideal_candidate_prompt req);
            EvPrint (u "---------------------------------")])%list) \/
  (no_surrogates (job_description req) = false /\
   exists start stop,
     surrogate_run (ideal_candidate_prompt req) 0 = Some (start, stop) /\
     gemini_analyze_resume req tr0 =
     (HttpError 500 ("An error occurred during analysis: " ++
                     encode_error_message (ideal_candidate_prompt req) start stop),
      tr0 ++ [EvPrint (u "--- PROMPT FOR IDEAL CANDIDATE ---")])%list).
Proof.
  assert (H1 : surrogate_run (u "--- PROMPT FOR IDEAL CANDIDATE ---") 0 = None)
    by (vm_compute; reflexivity).
  assert (H3 : surrogate_run (u "---------------------------------") 0 = None)
    by (vm_compute; reflexivity).
  pose proof (prompt_no_surrogates req) as Hp.
  unfold gemini_analyze_resume, try_except, bind, print, emit, ret, raise_exn, raise_http.
  rewrite H1, H3.
  destruct (no_surrogates (job_description req)) eqn:E; [left|right]; split; try reflexivity.
  - assert (Hr : surrogate_run (ideal_candidate_prompt req) 0 = None)
      by (apply surrogate_run_None; exact Hp).
    rewrite Hr, <- !app_assoc; reflexivity.
  - destruct (surrogate_run (ideal_candidate_prompt req) 0) as [[start stop]|] eqn:Hr.
    + exists start, stop; split; reflexivity.
    + apply surrogate_run_None in Hr; congruence.
Qed.



(** C8 (as the code does it): [/gemini-analyze] makes no remote call and
    has a single step.  Either it prints the three lines once each and
    answers the Step 1 structure alone (which has neither
    [resume_feedback] nor [actionable_suggestions]), or printing the prompt
    fails after the header line and it answers HTTP 500; nothing is
    retried and no partial structure is returned. *)
Theorem gemini_analyze_single_step (req : GeminiAnalysisRequest) (tr0 : list Event) :
  (gemini_analyze_resume req tr0 =
     (Ok mock_ideal_candidate,
      tr0 ++ [EvPrint (u "--- PROMPT FOR IDEAL CANDIDATE ---");
              EvPrint (ideal_candidate_prompt req);
              EvPrint (u "---------------------------------")])%list \/
   exists e, gemini_analyze_resume req tr0 =
     (HttpError 500 ("An error occurred during analysis: " ++ e),
      tr0 ++ [EvPrint (u "--- PROMPT FOR IDEAL CANDIDATE ---")])%list) /\
  ~ In "resume_feedback" (json_keys (ideal_candidate_json mock_ideal_candidate)) /\
  ~ In "actionable_suggestions" (json_keys (ideal_candidate_json mock_ideal_candidate)).
Proof.
  split.
  - destruct (gemini_analyze_resume_run req tr0) as [[_ R]|[_ (start & stop & _ & R)]].
    + left; exact R.
    + right; eexists; exact R.
  - split; simpl; intuition discriminate.
Qed.

(** C8 fails as stated: the response is neither an error nor an aggregate
    of three structures: it is the IdealCandidate object only. *)
Lemma gemini_response_not_aggregate :
  match fst (gemini_analyze_resume example_request []) with
  | Ok ic => ~ In "resume_feedback" (json_keys (ideal_candidate_json ic)) /\
             ~ In "actionable_suggestions" (json_keys (ideal_candidate_json ic))
  | _ => False
  end.
Proof.
  assert (E : fst (gemini_analyze_resume example_request []) = Ok mock_ideal_candidate)
    by (vm_compute; reflexivity).
  rewrite E; simpl; split; intuition discriminate.
Qed.



(* ------------------------------------------------------------------ *)
(** ** The lexical score *)

Open Scope R_scope.

Lemma sum_sq_nonneg (v : list R) : 0 <= sum_sq v.
Proof.
  induction v as [|x v IH]; simpl; [lra|].
  pose proof (Rle_0_sqr x) as H; unfold Rsqr in H; lra.
Qed.

Lemma sum_sq_div (v : list R) (n : R) :
  n <> 0 -> sum_sq (map (fun x => x / n) v) = sum_sq v / (n * n).
Proof.
  intros Hn; induction v as [|x v IH]; simpl; [field; exact Hn|].
  rewrite IH; field; exact Hn.
Qed.

Lemma l2_normalize_nonneg (v : list R) : nonneg v -> nonneg (l2_normalize v).
Proof.
  unfold l2_normalize, nonneg; intros H.
  destruct (Req_EM_T (sqrt (sum_sq v)) 0) as [_|Hn]; [exact H|].
  apply Forall_map; eapply Forall_impl; [|exact H]; intros x Hx.
  pose proof (sqrt_pos (sum_sq v)).
  apply Rmult_le_pos; [exact Hx|]; left; apply Rinv_0_lt_compat; lra.
Qed.

(** A normalized vector has squared norm 0 (it was zero) or 1. *)
Lemma l2_normalize_sum_sq (v : list R) :
  (sum_sq (l2_normalize v) = 0 /\ sum_sq v = 0) \/
  (sum_sq (l2_normalize v) = 1 /\ 0 < sum_sq v).
Proof.
  unfold l2_normalize.
  pose proof (sum_sq_nonneg v) as H0.
  destruct (Req_EM_T (sqrt (sum_sq v)) 0) as [Hz|Hn].
  - left; apply sqrt_eq_0 in Hz; [split; exact Hz|exact H0].
  - right; rewrite sum_sq_div by exact Hn; rewrite sqrt_sqrt by exact H0.
    split; [apply Rdiv_diag|].
    + intros E; apply Hn; rewrite E; apply sqrt_0.
    + destruct H0 as [H0|H0]; [exact H0|].
      exfalso; apply Hn; rewrite <- H0; apply sqrt_0.
Qed.

Lemma l2_normalize_zero (v : list R) : sum_sq v = 0 -> l2_normalize v = v.
Proof.
  unfold l2_normalize; intros H; rewrite H, sqrt_0.
  destruct (Req_EM_T 0 0) as [_|N]; [reflexivity|congruence].
Qed.

Lemma map_div_1 (l : list R) : map (fun x => x / 1) l = l.
Proof.
  induction l as [|x l IH]; simpl; [reflexivity|].
  rewrite IH; f_equal; field.
Qed.

Lemma l2_normalize_idem (v : list R) : l2_normalize (l2_normalize v) = l2_normalize v.
Proof.
  destruct (l2_normalize_sum_sq v) as [[H _]|[H _]].
  - apply l2_normalize_zero; exact H.
  - unfold l2_normalize at 1; rewrite H, sqrt_1.
    destruct (Req_EM_T 1 0) as [E|_]; [lra|].
    apply map_div_1.
Qed.

Lemma dot_le_half (u v : list R) : dot u v <= (sum_sq u + sum_sq v) / 2.
Proof.
  revert v; induction u as [|x u IH]; intros [|y v]; unfold dot; simpl.
  - lra.
  - pose proof (sum_sq_nonneg v); pose proof (Rle_0_sqr y); unfold Rsqr in *; lra.
  - pose proof (sum_sq_nonneg u); pose proof (Rle_0_sqr x); unfold Rsqr in *; lra.
  - specialize (IH v); unfold dot in IH.
    pose proof (Rle_0_sqr (x - y)); unfold Rsqr in *; nra.
Qed.

Lemma dot_nonneg (u v : list R) : nonneg u -> nonneg v -> 0 <= dot u v.
Proof.
  revert v; induction u as [|x u IH]; intros [|y v] Hu Hv; unfold dot; simpl; try lra.
  inversion Hu; inversion Hv; subst.
  specialize (IH v ltac:(assumption) ltac:(assumption)); unfold dot in IH.
  pose proof (Rmult_le_pos x y ltac:(assumption) ltac:(assumption)); lra.
Qed.

Lemma dot_self (u : list R) : dot u u = sum_sq u.
Proof.
  induction u as [|x u IH]; unfold dot in *; simpl; [reflexivity|]; rewrite IH; reflexivity.
Qed.

Lemma cosine_similarity_bounds (x y : list R) :
  nonneg x -> nonneg y -> 0 <= cosine_similarity x y <= 1.
Proof.
  intros Hx Hy; unfold cosine_similarity; split.
  - apply dot_nonneg; apply l2_normalize_nonneg; assumption.
  - pose proof (dot_le_half (l2_normalize x) (l2_normalize y)).
    destruct (l2_normalize_sum_sq x) as [[E _]|[E _]];
      destruct (l2_normalize_sum_sq y) as [[F _]|[F _]]; lra.
Qed.

Lemma cosine_similarity_self (x : list R) :
  0 < sum_sq x -> cosine_similarity x x = 1.
Proof.
  intros H; unfold cosine_similarity; rewrite dot_self.
  destruct (l2_normalize_sum_sq x) as [[_ E]|[E _]]; [lra|exact E].
Qed.

(* rounding *)
Lemma Int_part_spec (y : R) (z : Z) : IZR z <= y < IZR z + 1 -> Int_part y = z.
Proof.
  intros [H1 H2]; unfold Int_part.
  rewrite <- (up_tech y z H1) by (rewrite plus_IZR; exact H2); lia.
Qed.

Lemma round_half_even_IZR (n : Z) : round_half_even (IZR n) = n.
Proof.
  unfold round_half_even; rewrite (Int_part_spec (IZR n) n) by lra; cbv zeta.
  replace (IZR n - IZR n) with 0 by ring.
  destruct (Rlt_dec 0 (1 / 2)) as [_|N]; [reflexivity|lra].
Qed.

Lemma round_half_even_near (n : Z) (y : R) :
  IZR n - 1 / 2 < y < IZR n -> round_half_even y = n.
Proof.
  intros [H1 H2]; unfold round_half_even.
  rewrite (Int_part_spec y (n - 1)) by (rewrite minus_IZR; lra); cbv zeta.
  rewrite minus_IZR.
  destruct (Rlt_dec (y - (IZR n - IZR 1)) (1 / 2)) as [L|_]; [lra|].
  destruct (Rlt_dec (1 / 2) (y - (IZR n - IZR 1))) as [_|N]; [lia|lra].
Qed.

Lemma round_half_even_bounds (y : R) (n : Z) :
  0 <= y <= IZR n -> (0 <= round_half_even y <= n)%Z.
Proof.
  intros [H1 H2]; unfold round_half_even.
  destruct (base_Int_part y) as [B1 B2].
  set (f := Int_part y) in *; cbv zeta.
  assert (F0 : (0 <= f)%Z) by (apply le_IZR, Rnot_lt_le; intros L;
    assert (IZR f < 0) by lra; apply lt_IZR in L; assert (-1 < f)%Z by (apply lt_IZR; lra); lia).
  assert (Fn : (f <= n)%Z) by (apply le_IZR; lra).
  destruct (Rlt_dec (y - IZR f) (1 / 2)) as [L|L]; [lia|].
  assert (Fn' : (f < n)%Z) by (apply lt_IZR; lra).
  destruct (Rlt_dec (1 / 2) (y - IZR f)); [lia|].
  destruct (Z.even f); lia.
Qed.

Lemma py_round2_bounds (x : R) : 0 <= x <= 100 -> 0 <= py_round2 x <= 100.
Proof.
  intros Hx; unfold py_round2.
  destruct (round_half_even_bounds (x * 100) 10000) as [L U]; [lra|].
  apply IZR_le in L, U; lra.
Qed.

Lemma py_round2_100 : py_round2 100 = 100.
Proof.
  unfold py_round2.
  replace (100 * 100) with (IZR 10000) by lra.
  rewrite round_half_even_IZR; lra.
Qed.

(* weights *)
Lemma ln_nonneg (x : R) : 1 <= x -> 0 <= ln x.
Proof.
  intros [H|<-]; [|rewrite ln_1; lra].
  rewrite <- ln_1; left; apply ln_increasing; lra.
Qed.

Lemma idf_ge_1 (n df : nat) : (df <= n)%nat -> 1 <= idf n df.
Proof.
  intros H; unfold idf.
  assert (0 < INR (1 + df)) by (apply lt_0_INR; lia).
  assert (INR (1 + df) <= INR (1 + n)) by (apply le_INR; lia).
  assert (1 <= INR (1 + n) / INR (1 + df)).
  { apply (Rmult_le_reg_r (INR (1 + df))); [lra|].
    unfold Rdiv; rewrite Rmult_assoc, Rinv_l by lra; lra. }
  pose proof (ln_nonneg _ H2); lra.
Qed.

Lemma doc_freqs_le_2 (vocab : list string) (d1 d2 : string) :
  Forall (fun k => (k <= 2)%nat) (doc_freqs vocab [d1; d2]).
Proof.
  unfold doc_freqs; apply Forall_map, Forall_forall; intros t _; simpl.
  destruct (mem t (analyze_doc d1)), (mem t (analyze_doc d2)); simpl; lia.
Qed.

Lemma tfidf_weights_nonneg (idfs : list R) (tf : list nat) :
  Forall (fun w => 0 <= w) idfs -> nonneg (tfidf_weights idfs tf).
Proof.
  unfold nonneg, tfidf_weights; revert idfs; induction tf as [|c tf IH];
    intros [|w idfs] H; simpl; constructor.
  - inversion H; subst; apply Rmult_le_pos; [apply pos_INR|assumption].
  - apply IH; inversion H; assumption.
Qed.

Lemma combine_map_same {A B C} (f : A -> B) (g : A -> C) (l : list A) :
  combine (map f l) (map g l) = map (fun x => (f x, g x)) l.
Proof. induction l as [|x l IH]; simpl; [reflexivity|]; rewrite IH; reflexivity. Qed.

Lemma sum_sq_pos_In (x : R) (v : list R) : In x v -> x <> 0 -> 0 < sum_sq v.
Proof.
  induction v as [|y v IH]; simpl; [tauto|]; intros [->|H] Hx.
  - pose proof (sum_sq_nonneg v). assert (0 < x * x) by (apply Rsqr_pos_lt; exact Hx). lra.
  - pose proof (IH H Hx). pose proof (Rle_0_sqr y); unfold Rsqr in *; lra.
Qed.

Lemma count_str_pos (t : string) (l : list string) : In t l -> (1 <= count_str t l)%nat.
Proof.
  intros H; unfold count_str.
  assert (In t (filter (String.eqb t) l)) by (apply filter_In; split; [exact H|apply String.eqb_refl]).
  destruct (filter (String.eqb t) l); [destruct H0|simpl; lia].
Qed.

(** A document containing a vocabulary term has a non-zero weight vector. *)
Lemma tfidf_weights_pos (vocab : list string) (d1 d2 d : string) (t : string) :
  In t vocab -> In t (analyze_doc d) ->
  0 < sum_sq (tfidf_weights (map (idf 2) (doc_freqs vocab [d1; d2])) (term_counts vocab d)).
Proof.
  intros Hv Hd.
  pose proof (doc_freqs_le_2 vocab d1 d2) as Hdf.
  unfold tfidf_weights, term_counts, doc_freqs in *.
  rewrite map_map, combine_map_same, map_map.
  apply (sum_sq_pos_In (INR (count_str t (analyze_doc d)) *
           idf 2 (List.length (filter (fun d0 => mem t (analyze_doc d0)) [d1; d2])))).
  - apply in_map_iff; exists t; split; [reflexivity|exact Hv].
  - apply Rgt_not_eq, Rmult_lt_0_compat.
    + apply lt_0_INR; pose proof (count_str_pos t _ Hd); lia.
    + rewrite Forall_map, Forall_forall in Hdf; specialize (Hdf t Hv).
      pose proof (idf_ge_1 2 _ Hdf); lra.
Qed.

Lemma fit_vocabulary_nonempty (docs v : list string) : fit_vocabulary docs = Some v -> v <> [].
Proof.
  unfold fit_vocabulary; destruct (sorted _); intros H; inversion H; discriminate.
Qed.

Lemma l2_normalize_pos (w : list R) : 0 < sum_sq w -> 0 < sum_sq (l2_normalize w).
Proof. intros H; destruct (l2_normalize_sum_sq w) as [[_ E]|[E _]]; lra. Qed.

Lemma tfidf_rows_facts (d1 d2 : string) (r1 r2 : list R) :
  tfidf_fit_transform d1 d2 = Some (r1, r2) ->
  nonneg r1 /\ nonneg r2 /\ (0 < sum_sq r1 \/ 0 < sum_sq r2).
Proof.
  unfold tfidf_fit_transform; destruct (fit_vocabulary [d1; d2]) as [v|] eqn:Hv;
    [|discriminate]; intros H; injection H as <- <-.
  assert (Hidf : Forall (fun w => 0 <= w) (map (idf 2) (doc_freqs v [d1; d2]))).
  { pose proof (doc_freqs_le_2 v d1 d2) as Hdf; rewrite Forall_map.
    eapply Forall_impl; [|exact Hdf]; intros k Hk; pose proof (idf_ge_1 2 k Hk); lra. }
  split; [apply l2_normalize_nonneg, tfidf_weights_nonneg; exact Hidf|].
  split; [apply l2_normalize_nonneg, tfidf_weights_nonneg; exact Hidf|].
  destruct v as [|t v'] eqn:Ev; [exfalso; eapply fit_vocabulary_nonempty; eauto|].
  rewrite <- Ev in Hv |- *.
  assert (Ht : In t v) by (rewrite Ev; left; reflexivity).
  apply fit_vocabulary_Some in Hv as (_ & Hv & _).
  pose proof Ht as Ht'; apply Hv in Ht'; simpl in Ht'; rewrite app_nil_r in Ht'.
  apply in_app_or in Ht' as [H1|H2].
  - left; apply l2_normalize_pos; eapply tfidf_weights_pos; eassumption.
  - right; apply l2_normalize_pos; eapply tfidf_weights_pos; eassumption.
Qed.

(** C2 (as the code computes it): whenever the TF-IDF step succeeds, the
    match score [round(cosine * 100, 2)] lies in [[0, 100]]; identical
    normalized TF-IDF rows, in particular identical preprocessed texts, give
    exactly 100.  The converse stated in the specification does not hold:
    see [lexical_score_100_distinct_vectors]. *)
Theorem lexical_score_range (processed_resume processed_jd : string) (s : R) :
  lexical_score processed_resume processed_jd = Some s ->
  0 <= s <= 100 /\
  (forall r1 r2, tfidf_fit_transform processed_resume processed_jd = Some (r1, r2) ->
                 r1 = r2 -> s = 100) /\
  (processed_resume = processed_jd -> s = 100).
Proof.
  unfold lexical_score.
  destruct (tfidf_fit_transform processed_resume processed_jd) as [[r1 r2]|] eqn:E;
    [|discriminate]; intros H; injection H as <-.
  destruct (tfidf_rows_facts _ _ _ _ E) as (N1 & N2 & Pos).
  assert (Same : r1 = r2 -> py_round2 (cosine_similarity r1 r2 * 100) = 100).
  { intros <-; rewrite cosine_similarity_self by (destruct Pos; assumption).
    rewrite Rmult_1_l; apply py_round2_100. }
  split; [|split].
  - apply py_round2_bounds; pose proof (cosine_similarity_bounds r1 r2 N1 N2); lra.
  - intros r1' r2' E' Heq; injection E' as <- <-; exact (Same Heq).
  - intros Hd; apply Same; subst processed_jd.
    unfold tfidf_fit_transform in E; destruct (fit_vocabulary _); [|discriminate].
    injection E as <- <-; reflexivity.
Qed.

Lemma normalize_pair (a b : R) (s : R) :
  a * a + (b * b + 0) = s -> 0 < s ->
  l2_normalize [a; b] = [a / sqrt s; b / sqrt s].
Proof.
  intros Hs Hpos; unfold l2_normalize; simpl sum_sq; rewrite Hs.
  destruct (Req_EM_T (sqrt s) 0) as [E|_].
  - pose proof (sqrt_lt_R0 s Hpos); lra.
  - reflexivity.
Qed.

(** C2 fails as an equivalence: the preprocessed texts [near_resume] and
    [near_job] have different normalized TF-IDF rows, yet their cosine,
    421 / sqrt 177242, is at least 0.99995, so [round(cosine * 100, 2)]
    is 100. *)
Lemma lexical_score_100_distinct_vectors :
  exists r1 r2,
    tfidf_fit_transform near_resume near_job = Some (r1, r2) /\ r1 <> r2 /\
    lexical_score near_resume near_job = Some 100.
Proof.
  assert (Hv : fit_vocabulary [near_resume; near_job] = Some ["java"; "python"]%string)
    by (vm_compute; reflexivity).
  assert (Hdf : doc_freqs ["java"; "python"]%string [near_resume; near_job] = [2; 2]%nat)
    by (vm_compute; reflexivity).
  assert (Ht1 : term_counts ["java"; "python"]%string near_resume = [1; 20]%nat)
    by (vm_compute; reflexivity).
  assert (Ht2 : term_counts ["java"; "python"]%string near_job = [1; 21]%nat)
    by (vm_compute; reflexivity).
  assert (Hidf : idf 2 2 = 1).
  { unfold idf; rewrite Rdiv_diag by (apply not_0_INR; lia); rewrite ln_1; lra. }
  unfold lexical_score, tfidf_fit_transform; rewrite Hv, Hdf, Ht1, Ht2.
  unfold tfidf_weights; cbn [map combine]; rewrite Hidf.
  replace (INR 1 * 1) with 1 by (simpl; lra).
  replace (INR 20 * 1) with 20 by (rewrite INR_IZR_INZ; simpl; lra).
  replace (INR 21 * 1) with 21 by (rewrite INR_IZR_INZ; simpl; lra).
  rewrite (normalize_pair 1 20 401) by lra.
  rewrite (normalize_pair 1 21 442) by lra.
  pose proof (sqrt_lt_R0 401 ltac:(lra)) as A0.
  pose proof (sqrt_lt_R0 442 ltac:(lra)) as B0.
  eexists _, _; split; [reflexivity|split].
  - set (a := sqrt 401) in *.
    intros E; injection E as E1 E2.
    assert (20 * (1 / a) = 21 * (1 / a)) by (rewrite E1 in *; unfold Rdiv in *; lra).
    assert (0 < 1 / a) by (apply Rdiv_lt_0_compat; lra).
    lra.
  - f_equal.
    unfold cosine_similarity.
    rewrite <- (normalize_pair 1 20 401), <- (normalize_pair 1 21 442) by lra.
    rewrite !l2_normalize_idem.
    rewrite (normalize_pair 1 20 401), (normalize_pair 1 21 442) by lra.
    set (a := sqrt 401) in *; set (b := sqrt 442) in *.
    assert (Hq : a * b * (a * b) = 177242).
    { replace (a * b * (a * b)) with ((a * a) * (b * b)) by ring.
      unfold a, b; rewrite !sqrt_sqrt by lra; lra. }
    assert (Q0 : 0 < a * b) by (apply Rmult_lt_0_compat; lra).
    assert (Hcos : dot [1 / a; 20 / a] [1 / b; 21 / b] = 421 / (a * b)).
    { unfold dot; simpl; field; lra. }
    rewrite Hcos.
    assert (L1 : 421 < a * b) by nra.
    assert (L2 : 0.99995 * (a * b) < 421) by nra.
    unfold py_round2.
    rewrite (round_half_even_near 10000).
    + lra.
    + split.
      * apply (Rmult_lt_reg_r (a * b)); [exact Q0|].
        unfold Rdiv; field_simplify; [lra|lra].
      * apply (Rmult_lt_reg_r (a * b)); [exact Q0|].
        unfold Rdiv; field_simplify; [lra|lra].
Qed.

Lemma lexical_score_range_witness :
  exists s, lexical_score "python developer" "python developer" = Some s /\
    (0 <= s <= 100 /\
     (forall r1 r2, tfidf_fit_transform "python developer" "python developer" = Some (r1, r2) ->
                    r1 = r2 -> s = 100) /\
     ("python developer" = "python developer" -> s = 100)).
Proof.
  assert (Hok : match lexical_score "python developer" "python developer" with
                | Some _ => true | None => false end = true) by (vm_compute; reflexivity).
  destruct (lexical_score "python developer" "python developer") as [s|] eqn:E;
    [|discriminate Hok].
  exists s; split; [reflexivity|].
  exact (lexical_score_range "python developer" "python developer" s E).
Defined.

Close Scope R_scope.

(* ------------------------------------------------------------------ *)
(** ** Text normalization, extraction and the handlers' edges *)

Lemma is_word_char_lower (c : ascii) : is_word_char (lower_char c) = is_word_char c.
Proof. destruct c as [[] [] [] [] [] [] [] []]; reflexivity. Qed.

Lemma is_space_lower (c : ascii) : is_space (lower_char c) = is_space c.
Proof. destruct c as [[] [] [] [] [] [] [] []]; reflexivity. Qed.

Lemma lower_char_idem (c : ascii) : lower_char (lower_char c) = lower_char c.
Proof. destruct c as [[] [] [] [] [] [] [] []]; reflexivity. Qed.

Lemma lower_idem (s : string) : lower (lower s) = lower s.
Proof. induction s as [|c s IH]; simpl; [reflexivity|]; rewrite lower_char_idem, IH; reflexivity. Qed.

Lemma lower_app (s1 s2 : string) : lower (s1 ++ s2) = lower s1 ++ lower s2.
Proof. induction s1 as [|c s IH]; simpl; [reflexivity|]; rewrite IH; reflexivity. Qed.

Lemma strip_non_word_lower (s : string) : strip_non_word (lower s) = lower (strip_non_word s).
Proof.
  induction s as [|c s IH]; simpl; [reflexivity|].
  rewrite is_word_char_lower, is_space_lower.
  destruct (is_word_char c || is_space c); simpl; rewrite IH; reflexivity.
Qed.

Lemma strip_non_word_app (s1 s2 : string) :
  strip_non_word (s1 ++ s2) = strip_non_word s1 ++ strip_non_word s2.
Proof.
  induction s1 as [|c s IH]; simpl; [reflexivity|].
  destruct (is_word_char c || is_space c); simpl; rewrite IH; reflexivity.
Qed.

Lemma preprocess_text_lower_eq (nlp : string -> list Token) (s t : string) :
  lower s = lower t -> preprocess_text nlp s = preprocess_text nlp t.
Proof.
  intros H; unfold preprocess_text.
  rewrite <- !strip_non_word_lower, H; reflexivity.
Qed.

(** [preprocess_text] ignores letter case on ASCII texts: two ASCII
    texts that lower-case to the same string normalize to the same text,
    whatever the language model. *)
Theorem preprocess_text_case_insensitive (nlp : string -> list Token) (s t : string) :
  is_ascii s = true -> is_ascii t = true ->
  lower s = lower t -> preprocess_text nlp s = preprocess_text nlp t.
Proof. intros _ _; apply preprocess_text_lower_eq. Qed.

Lemma preprocess_text_case_insensitive_witness :
  is_ascii "Senior PYTHON Developer" = true /\ is_ascii "senior python developer" = true /\
  lower "Senior PYTHON Developer" = lower "senior python developer" /\
  preprocess_text sample_nlp "Senior PYTHON Developer" = preprocess_text sample_nlp "senior python developer".
Proof.
  split; [reflexivity|split; [reflexivity|split; [reflexivity|]]].
  apply (preprocess_text_case_insensitive sample_nlp); reflexivity.
Defined.

(** [preprocess_text] ignores every character that is neither a word
    character nor whitespace: deleting one such character anywhere in the
    text (which may join the words around it) leaves the normalized text
    unchanged. *)
Theorem preprocess_text_drops_symbol (nlp : string -> list Token) (s1 s2 : string) (c : ascii) :
  (is_word_char c || is_space c)%bool = false ->
  preprocess_text nlp (s1 ++ String c s2) = preprocess_text nlp (s1 ++ s2).
Proof.
  intros Hc; unfold preprocess_text.
  rewrite !strip_non_word_app; simpl; rewrite Hc; reflexivity.
Qed.

Lemma preprocess_text_drops_symbol_witness :
  (is_word_char "." || is_space ".")%bool = false /\
  preprocess_text sample_nlp ("Node" ++ String "." "js") = preprocess_text sample_nlp ("Node" ++ "js").
Proof.
  split; [reflexivity|].
  apply preprocess_text_drops_symbol; reflexivity.
Defined.

(** [/analyze] gives the same response (and runs the same steps) for two
    ASCII job descriptions that differ only in letter case. *)
Theorem analyze_resume_job_case_insensitive (env : Env) (fn : string) (c : list Byte.byte)
    (jd1 jd2 : string) (tr0 : list Event) :
  is_ascii jd1 = true -> is_ascii jd2 = true ->
  lower jd1 = lower jd2 ->
  analyze_resume env fn c jd1 tr0 = analyze_resume env fn c jd2 tr0.
Proof.
  intros _ _ H; unfold analyze_resume.
  rewrite (preprocess_text_lower_eq (nlp env) jd1 jd2 H); reflexivity.
Qed.

Lemma analyze_resume_job_case_insensitive_witness :
  is_ascii "Python DEVELOPER" = true /\ is_ascii "python developer" = true /\
  lower "Python DEVELOPER" = lower "python developer" /\
  analyze_resume sample_env "cv.pdf" (bytes_of_string example_resume) "Python DEVELOPER" []
  = analyze_resume sample_env "cv.pdf" (bytes_of_string example_resume) "python developer" [].
Proof.
  split; [reflexivity|split; [reflexivity|split; [reflexivity|]]].
  apply analyze_resume_job_case_insensitive; reflexivity.
Defined.

Lemma split_on_app (sep : ascii) (p r : string) :
  has_char sep p = false ->
  split_on sep (p ++ String sep r) = p :: split_on sep r.
Proof.
  induction p as [|c p IH]; simpl; intros H.
  - rewrite Ascii.eqb_refl; reflexivity.
  - apply orb_false_iff in H as [H1 H2].
    rewrite Ascii.eqb_sym, H1, IH by exact H2; reflexivity.
Qed.

Lemma split_on_single (sep : ascii) (p : string) :
  has_char sep p = false -> split_on sep p = [p].
Proof.
  induction p as [|c p IH]; simpl; intros H; [reflexivity|].
  apply orb_false_iff in H as [H1 H2].
  rewrite Ascii.eqb_sym, H1, IH by exact H2; reflexivity.
Qed.

Lemma split_on_concat (sep : ascii) (ps : list string) :
  ps <> [] -> forallb (fun p => negb (has_char sep p)) ps = true ->
  split_on sep (String.concat (String sep EmptyString) ps) = ps.
Proof.
  induction ps as [|p ps IH]; intros Hne H; [congruence|].
  simpl in H; apply andb_true_iff in H as [Hp Hps]; apply negb_true_iff in Hp.
  destruct ps as [|q qs].
  - simpl; apply split_on_single; exact Hp.
  - change (String.concat (String sep EmptyString) (p :: q :: qs))
      with (p ++ String sep (String.concat (String sep EmptyString) (q :: qs))).
    rewrite split_on_app by exact Hp; f_equal; apply IH; [discriminate|exact Hps].
Qed.

(** DOCX extraction joins the paragraphs with newlines: when there is at
    least one paragraph and no paragraph contains a newline, splitting the
    extracted text at newlines gives back the paragraphs. *)
Theorem extract_text_from_docx_split (env : Env) (b : list Byte.byte) (paragraphs : list string) :
  docx_document env b = inr paragraphs ->
  paragraphs <> [] ->
  forallb (fun p => negb (has_char (ascii_of_nat 10) p)) paragraphs = true ->
  exists text, extract_text_from_docx env b = inr text /\
               split_on (ascii_of_nat 10) text = paragraphs.
Proof.
  intros Hd Hne Hnl; unfold extract_text_from_docx; rewrite Hd.
  eexists; split; [reflexivity|]; apply split_on_concat; assumption.
Qed.

Lemma extract_text_from_docx_split_witness :
  docx_document two_paragraph_env (bytes_of_string "PK") = inr ["Python developer"; "Docker and AWS"] /\
  exists text, extract_text_from_docx two_paragraph_env (bytes_of_string "PK") = inr text /\
               split_on (ascii_of_nat 10) text = ["Python developer"; "Docker and AWS"].
Proof.
  split; [reflexivity|].
  apply (extract_text_from_docx_split two_paragraph_env (bytes_of_string "PK")
           ["Python developer"; "Docker and AWS"]);
    [reflexivity|discriminate|reflexivity].
Defined.

Lemma join_space_concat (l : list string) : join_space l = String.concat " " l.
Proof.
  induction l as [|x l IH]; [reflexivity|].
  destruct l as [|y l]; [reflexivity|].
  change (join_space (x :: y :: l)) with (x ++ " " ++ join_space (y :: l)).
  rewrite IH; reflexivity.
Qed.

(** The normalized text is the lemmas of the kept tokens separated by
    single spaces: when some token is kept and no kept lemma contains a
    space, splitting the result at spaces gives back the kept lemmas, in
    order. *)
Theorem preprocess_text_split (nlp : string -> list Token) (text : string) :
  filter keep_token (nlp (lower (strip_non_word text))) <> [] ->
  forallb (fun t => negb (has_char " " (lemma_ t))) (filter keep_token (nlp (lower (strip_non_word text)))) = true ->
  split_on " " (preprocess_text nlp text) = map lemma_ (filter keep_token (nlp (lower (strip_non_word text)))).
Proof.
  intros Hne Hsp; unfold preprocess_text; rewrite join_space_concat.
  apply split_on_concat.
  - destruct (filter keep_token _); [congruence|discriminate].
  - revert Hsp; generalize (filter keep_token (nlp (lower (strip_non_word text)))).
    induction l as [|t l IH]; simpl; [reflexivity|].
    rewrite !andb_true_iff; intros [H1 H2]; split; [exact H1|exact (IH H2)].
Qed.

Lemma preprocess_text_split_witness :
  split_on " " (preprocess_text sample_nlp example_job) = ["looking"; "python"; "developer"; "familiar"; "docker"; "kubernetes"].
Proof.
  apply (preprocess_text_split sample_nlp example_job); vm_compute; [discriminate|reflexivity].
Defined.

Lemma str_app_nil_r (s : string) : s ++ "" = s.
Proof. induction s as [|c s IH]; simpl; [reflexivity|]; rewrite IH; reflexivity. Qed.

Lemma str_app_assoc (s1 s2 s3 : string) : s1 ++ (s2 ++ s3) = (s1 ++ s2) ++ s3.
Proof. induction s1 as [|c s IH]; simpl; [reflexivity|]; rewrite IH; reflexivity. Qed.

Lemma concat_empty_cons (x : string) (l : list string) :
  String.concat "" (x :: l) = x ++ String.concat "" l.
Proof. destruct l as [|y l]; simpl; [rewrite str_app_nil_r|]; reflexivity. Qed.

Lemma concat_empty_app (l1 l2 : list string) :
  String.concat "" (l1 ++ l2) = String.concat "" l1 ++ String.concat "" l2.
Proof.
  induction l1 as [|x l IH]; [reflexivity|].
  rewrite <- app_comm_cons, !concat_empty_cons, IH, str_app_assoc; reflexivity.
Qed.

(** PDF extraction concatenates the texts of the pages in order, with no
    separator between pages; pages whose [extract_text()] gives [None]
    contribute nothing. *)
Theorem extract_text_from_pdf_pages (env : Env) (b : list Byte.byte) (pages : list (option string)) :
  pdf_reader env b = inr pages ->
  extract_text_from_pdf env b =
  inr (String.concat "" (flat_map (fun p => match p with Some t => [t] | None => [] end) pages)).
Proof.
  intros Hp; unfold extract_text_from_pdf; rewrite Hp; f_equal.
  set (page := fun p : option string => match p with Some t => t | None => "" end).
  set (texts := fun p : option string => match p with Some t => [t] | None => [] end).
  assert (G : forall acc, fold_left (fun text p => text ++ page p) pages acc =
                          acc ++ String.concat "" (flat_map texts pages)).
  { clear Hp; induction pages as [|p pages IH]; intros acc; simpl.
    - symmetry; apply str_app_nil_r.
    - rewrite IH, concat_empty_app, str_app_assoc.
      destruct p as [t|]; reflexivity. }
  exact (G "").
Qed.

Lemma extract_text_from_pdf_pages_witness :
  extract_text_from_pdf (mkEnv sample_nlp (fun _ => inr [Some "Python "; None; Some "developer"])
                           (docx_document sample_env) (set_iter sample_env)) []
  = inr (String.concat "" ["Python "; "developer"]).
Proof. apply (extract_text_from_pdf_pages _ [] [Some "Python "; None; Some "developer"]); reflexivity. Defined.

Lemma list_ascii_of_string_app (s1 s2 : string) :
  list_ascii_of_string (s1 ++ s2) = (list_ascii_of_string s1 ++ list_ascii_of_string s2)%list.
Proof. induction s1 as [|c s IH]; simpl; [reflexivity|]; rewrite IH; reflexivity. Qed.

Lemma list_ascii_of_string_length (s : string) : List.length (list_ascii_of_string s) = String.length s.
Proof. induction s as [|c s IH]; simpl; [reflexivity|]; rewrite IH; reflexivity. Qed.

Lemma string_of_list_ascii_length (l : list ascii) : String.length (string_of_list_ascii l) = List.length l.
Proof. induction l as [|c l IH]; simpl; [reflexivity|]; rewrite IH; reflexivity. Qed.

Lemma str_app_inj_l (p s1 s2 : string) : p ++ s1 = p ++ s2 -> s1 = s2.
Proof. induction p as [|c p IH]; simpl; [auto|]; intros H; injection H; exact IH. Qed.

Lemma str_app_inj_r (p s1 s2 : string) : s1 ++ p = s2 ++ p -> s1 = s2.
Proof.
  intros H; apply (f_equal list_ascii_of_string) in H; rewrite !list_ascii_of_string_app in H.
  apply app_inv_tail in H.
  rewrite <- (string_of_list_ascii_of_string s1), <- (string_of_list_ascii_of_string s2), H.
  reflexivity.
Qed.

(** The file-type check of [/analyze] is case-sensitive: any file name
    ending in [.PDF] or [.DOCX] is answered 400 with the invalid file type
    detail, before the file is read. *)
Theorem analyze_rejects_uppercase_extension (env : Env) (p : string) (c : list Byte.byte)
    (jd : string) (tr0 : list Event) :
  analyze_resume env (p ++ ".PDF") c jd tr0 = (HttpError 400 invalid_file_type_detail, tr0) /\
  analyze_resume env (p ++ ".DOCX") c jd tr0 = (HttpError 400 invalid_file_type_detail, tr0).
Proof.
  unfold analyze_resume, endswith.
  rewrite !list_ascii_of_string_app, !rev_app_distr.
  split; reflexivity.
Qed.

Lemma forallb_rev {A} (f : A -> bool) (l : list A) : forallb f (rev l) = forallb f l.
Proof.
  induction l as [|x l IH]; simpl; [reflexivity|].
  rewrite forallb_app, IH; simpl; rewrite andb_true_r, andb_comm; reflexivity.
Qed.

Lemma find_words_shape (P : ascii -> bool) (s : string) (cur : list ascii) (w : string) :
  forallb P (list_ascii_of_string s) = true ->
  forallb (fun ch => P ch && is_word_char ch) cur = true ->
  In w (find_words s cur) ->
  (2 <= String.length w)%nat /\
  forallb (fun ch => P ch && is_word_char ch) (list_ascii_of_string w) = true.
Proof.
  assert (Flush : forall cur, forallb (fun ch => P ch && is_word_char ch) cur = true ->
            In w (if (2 <=? List.length cur)%nat then [string_of_list_ascii (rev cur)] else []) ->
            (2 <= String.length w)%nat /\
            forallb (fun ch => P ch && is_word_char ch) (list_ascii_of_string w) = true).
  { intros cur' Hc Hin; destruct (2 <=? List.length cur')%nat eqn:E; [|destruct Hin].
    destruct Hin as [<-|[]]; apply Nat.leb_le in E.
    rewrite string_of_list_ascii_length, length_rev, list_ascii_of_string_of_list_ascii, forallb_rev.
    split; assumption. }
  revert cur; induction s as [|ch s IH]; intros cur Hs Hc Hin; simpl in *.
  - exact (Flush cur Hc Hin).
  - apply andb_true_iff in Hs as [Hch Hs].
    destruct (is_word_char ch) eqn:Hw.
    + apply (IH (ch :: cur) Hs); [simpl; rewrite Hch, Hw, Hc; reflexivity|exact Hin].
    + apply in_app_or in Hin as [Hin|Hin]; [exact (Flush cur Hc Hin)|].
      exact (IH [] Hs eq_refl Hin).
Qed.

Lemma analyze_doc_shape (d w : string) :
  In w (analyze_doc d) ->
  (2 <= String.length w)%nat /\
  forallb (fun ch => Ascii.eqb (lower_char ch) ch && is_word_char ch) (list_ascii_of_string w) = true.
Proof.
  unfold analyze_doc; intros H.
  assert (Hl : forallb (fun ch => Ascii.eqb (lower_char ch) ch) (list_ascii_of_string (lower d)) = true).
  { clear H; induction d as [|ch d IH]; simpl; [reflexivity|].
    rewrite lower_char_idem, Ascii.eqb_refl, IH; reflexivity. }
  exact (find_words_shape _ (lower d) [] w Hl eq_refl H).
Qed.

(** Every keyword that a successful [/analyze] returns (matched or
    missing) has at least two characters, all of them lower-case letters,
    digits or underscores, when the normalized job description is ASCII:
    one-letter words are never keywords. *)
Theorem analyze_resume_keyword_shape (env : Env) (fn : string) (c : list Byte.byte) (jd : string)
    (tr0 tr : list Event) (res : AnalysisResult) :
  valid_env env ->
  is_ascii (preprocess_text (nlp env) jd) = true ->
  analyze_resume env fn c jd tr0 = (Ok res, tr) ->
  forall w, In w (matched_keywords res ++ missing_keywords res)%list ->
  (2 <= String.length w)%nat /\
  forallb (fun ch => Ascii.eqb (lower_char ch) ch && is_word_char ch) (list_ascii_of_string w) = true.
Proof.
  intros Hv _ H w Hw.
  apply analyze_resume_keywords in H as (text & jv & rv & _ & _ & Hjv & _ & _ & _ & Hm & Hmi);
    [|exact Hv].
  assert (Hin : In w jv) by (apply in_app_or in Hw as [Hw|Hw]; [apply Hm in Hw|apply Hmi in Hw]; tauto).
  apply (fit_vocabulary_single _ _ w Hjv) in Hin.
  exact (analyze_doc_shape _ _ Hin).
Qed.

Lemma analyze_resume_keyword_shape_witness :
  is_ascii (preprocess_text (nlp sample_env) example_job) = true /\
  exists res tr,
    analyze_resume sample_env "cv.pdf" (bytes_of_string example_resume) example_job [] = (Ok res, tr) /\
    forall w, In w (matched_keywords res ++ missing_keywords res)%list ->
    (2 <= String.length w)%nat /\
    forallb (fun ch => Ascii.eqb (lower_char ch) ch && is_word_char ch) (list_ascii_of_string w) = true.
Proof.
  assert (Ha : is_ascii (preprocess_text (nlp sample_env) example_job) = true)
    by (vm_compute; reflexivity).
  split; [exact Ha|].
  assert (Hok : outcome_is_ok (fst (analyze_resume sample_env "cv.pdf" (bytes_of_string example_resume) example_job [])) = true)
    by (vm_compute; reflexivity).
  destruct (analyze_resume sample_env "cv.pdf" (bytes_of_string example_resume) example_job [])
    as [[res|s d|e] tr] eqn:E; simpl in Hok; try discriminate Hok.
  exists res, tr; split; [reflexivity|].
  exact (analyze_resume_keyword_shape sample_env _ _ _ _ _ _ sample_env_valid Ha E).
Defined.

(** For job descriptions without surrogate code points, the lines
    [/gemini-analyze] prints are the same for two requests exactly when
    their job descriptions are equal: the job description is printed
    verbatim inside the prompt, and the resume text is never printed. *)
Theorem gemini_trace_job_description (req1 req2 : GeminiAnalysisRequest) (tr0 : list Event) :
  no_surrogates (job_description req1) = true ->
  no_surrogates (job_description req2) = true ->
  (snd (gemini_analyze_resume req1 tr0) = snd (gemini_analyze_resume req2 tr0) <->
   job_description req1 = job_description req2).
Proof.
  intros H1 H2.
  destruct (gemini_analyze_resume_run req1 tr0) as [[_ R1]|[E1 _]]; [|congruence].
  destruct (gemini_analyze_resume_run req2 tr0) as [[_ R2]|[E2 _]]; [|congruence].
  rewrite R1, R2; simpl.
  destruct ideal_candidate_prompt_split as (head & tail & _ & _ & Ep).
  rewrite !Ep; split.
  - intros H; apply app_inv_head in H; injection H as H.
    apply app_inv_head in H; apply app_inv_tail in H; exact H.
  - intros H; rewrite H; reflexivity.
Qed.

Lemma gemini_trace_job_description_witness :
  no_surrogates (job_description example_request) = true /\
  no_surrogates (u "Senior Go engineer") = true /\
  (snd (gemini_analyze_resume example_request [])
   = snd (gemini_analyze_resume (mkGeminiAnalysisRequest (u example_resume) (u "Senior Go engineer")) []) <->
   job_description example_request = u "Senior Go engineer").
Proof.
  split; [vm_compute; reflexivity|split; [vm_compute; reflexivity|]].
  apply (gemini_trace_job_description example_request
           (mkGeminiAnalysisRequest (u example_resume) (u "Senior Go engineer")) []);
    vm_compute; reflexivity.
Defined.

(* ------------------------------------------------------------------ *)
(** ** Further properties of the lexical score *)

Open Scope R_scope.

Lemma sorted_dedup_same (l1 l2 : list string) :
  (forall x, In x l1 <-> In x l2) -> sorted (dedup l1) = sorted (dedup l2).
Proof.
  intros H; apply sorted_perm_eq, NoDup_Permutation; try apply dedup_NoDup.
  intros x; rewrite !dedup_In; apply H.
Qed.

Lemma fit_vocabulary_ext (d1 d2 : list string) :
  (forall x, In x (List.concat (map analyze_doc d1)) <-> In x (List.concat (map analyze_doc d2))) ->
  fit_vocabulary d1 = fit_vocabulary d2.
Proof. intros H; unfold fit_vocabulary; rewrite (sorted_dedup_same _ _ H); reflexivity. Qed.

Lemma dot_comm (u v : list R) : dot u v = dot v u.
Proof.
  unfold dot; revert v; induction u as [|x u IH]; intros [|y v]; simpl; try reflexivity.
  rewrite IH; ring.
Qed.

(** The lexical match score is symmetric: exchanging the normalized resume
    and the normalized job description gives the same score (or the same
    failure). *)
Theorem lexical_score_symmetric (a b : string) : lexical_score a b = lexical_score b a.
Proof.
  assert (Hv : fit_vocabulary [a; b] = fit_vocabulary [b; a]).
  { apply fit_vocabulary_ext; intros x; simpl; rewrite !in_app_iff; tauto. }
  assert (Hdf : forall v, doc_freqs v [a; b] = doc_freqs v [b; a]).
  { intros v; unfold doc_freqs; apply map_ext; intros t; simpl.
    destruct (mem t (analyze_doc a)), (mem t (analyze_doc b)); reflexivity. }
  unfold lexical_score, tfidf_fit_transform; rewrite Hv.
  destruct (fit_vocabulary [b; a]) as [v|]; [|reflexivity].
  rewrite Hdf; unfold cosine_similarity; rewrite dot_comm; reflexivity.
Qed.

Lemma count_str_absent (t : string) (l : list string) : ~ In t l -> count_str t l = 0%nat.
Proof.
  intros H; unfold count_str.
  destruct (filter (String.eqb t) l) as [|x m] eqn:E; [reflexivity|].
  assert (Hx : In x (filter (String.eqb t) l)) by (rewrite E; left; reflexivity).
  apply filter_In in Hx as [Hx Ht]; apply String.eqb_eq in Ht; subst; contradiction.
Qed.

Lemma Forall2_map_same {A} (F : R -> R -> Prop) (h1 h2 : A -> R) (l : list A) :
  (forall t, In t l -> F (h1 t) (h2 t)) -> Forall2 F (map h1 l) (map h2 l).
Proof.
  induction l as [|x l IH]; intros H; simpl; constructor.
  - apply H; left; reflexivity.
  - apply IH; intros t Ht; apply H; right; exact Ht.
Qed.

Lemma dot_orthogonal (u v : list R) : Forall2 (fun x y => x * y = 0) u v -> dot u v = 0.
Proof. unfold dot; induction 1 as [|x y u v H _ IH]; simpl; [reflexivity|]; rewrite H, IH; ring. Qed.

Lemma scale_orthogonal_l (k : R) (u v : list R) :
  Forall2 (fun x y => x * y = 0) u v -> Forall2 (fun x y => x * y = 0) (map (fun x => x / k) u) v.
Proof.
  induction 1 as [|x y u v H _ IH]; simpl; constructor; [|exact IH].
  replace (x / k * y) with (x * y / k) by (unfold Rdiv; ring).
  rewrite H; unfold Rdiv; ring.
Qed.

Lemma scale_orthogonal_r (k : R) (u v : list R) :
  Forall2 (fun x y => x * y = 0) u v -> Forall2 (fun x y => x * y = 0) u (map (fun y => y / k) v).
Proof.
  induction 1 as [|x y u v H _ IH]; simpl; constructor; [|exact IH].
  replace (x * (y / k)) with (x * y / k) by (unfold Rdiv; ring).
  rewrite H; unfold Rdiv; ring.
Qed.

Lemma l2_normalize_orthogonal_l (u v : list R) :
  Forall2 (fun x y => x * y = 0) u v -> Forall2 (fun x y => x * y = 0) (l2_normalize u) v.
Proof. unfold l2_normalize; destruct (Req_EM_T _ _); [tauto|apply scale_orthogonal_l]. Qed.

Lemma l2_normalize_orthogonal_r (u v : list R) :
  Forall2 (fun x y => x * y = 0) u v -> Forall2 (fun x y => x * y = 0) u (l2_normalize v).
Proof. unfold l2_normalize; destruct (Req_EM_T _ _); [tauto|apply scale_orthogonal_r]. Qed.

Lemma py_round2_0 : py_round2 0 = 0.
Proof.
  unfold py_round2; rewrite Rmult_0_l.
  change 0 with (IZR 0); rewrite round_half_even_IZR; unfold Rdiv; ring.
Qed.

(** Two normalized documents with no analyzed term in common score 0. *)
Theorem lexical_score_disjoint (a b : string) (s : R) :
  lexical_score a b = Some s ->
  (forall t, In t (analyze_doc a) -> ~ In t (analyze_doc b)) ->
  s = 0.
Proof.
  unfold lexical_score, tfidf_fit_transform.
  destruct (fit_vocabulary [a; b]) as [v|]; [|discriminate].
  intros H Hdis; injection H as <-.
  unfold tfidf_weights, term_counts, doc_freqs.
  rewrite (map_map _ (idf 2)), !combine_map_same, !map_map.
  assert (Hw : Forall2 (fun x y => x * y = 0)
    (map (fun t => INR (count_str t (analyze_doc a)) *
                   idf 2 (List.length (filter (fun d => mem t (analyze_doc d)) [a; b]))) v)
    (map (fun t => INR (count_str t (analyze_doc b)) *
                   idf 2 (List.length (filter (fun d => mem t (analyze_doc d)) [a; b]))) v)).
  { apply Forall2_map_same; intros t _.
    destruct (in_dec string_dec t (analyze_doc a)) as [Ha|Ha].
    - rewrite (count_str_absent t (analyze_doc b) (Hdis t Ha)); simpl; ring.
    - rewrite (count_str_absent t (analyze_doc a) Ha); simpl; ring. }
  unfold cosine_similarity.
  rewrite dot_orthogonal, Rmult_0_l; [apply py_round2_0|].
  apply l2_normalize_orthogonal_l, l2_normalize_orthogonal_r,
        l2_normalize_orthogonal_l, l2_normalize_orthogonal_r; exact Hw.
Qed.

Lemma lexical_score_disjoint_witness :
  exists s, lexical_score "python developer" "java engineer" = Some s /\ s = 0.
Proof.
  assert (Hok : match lexical_score "python developer" "java engineer" with
                | Some _ => true | None => false end = true) by (vm_compute; reflexivity).
  destruct (lexical_score "python developer" "java engineer") as [s|] eqn:E; [|discriminate Hok].
  exists s; split; [reflexivity|].
  apply (lexical_score_disjoint "python developer" "java engineer" s E).
  intros t Ht Hb; vm_compute in Ht, Hb.
  destruct Ht as [<-|[<-|[]]]; destruct Hb as [Hb|[Hb|[]]]; discriminate Hb.
Defined.

Lemma round_half_even_close (y : R) : Rabs (IZR (round_half_even y) - y) <= 1 / 2.
Proof.
  pose proof (base_Int_part y) as [B1 B2].
  unfold round_half_even.
  destruct (Rlt_dec (y - IZR (Int_part y)) (1 / 2));
    [|destruct (Rlt_dec (1 / 2) (y - IZR (Int_part y)));
      [|destruct (Z.even (Int_part y))]];
    rewrite ?plus_IZR; apply Rabs_le; lra.
Qed.

Lemma Rabs_bounds (d e : R) : Rabs d <= e -> - e <= d <= e.
Proof.
  intros H; pose proof (Rle_abs d); pose proof (Rle_abs (- d)) as H'.
  rewrite Rabs_Ropp in H'; lra.
Qed.

Lemma py_round2_close (x : R) : Rabs (py_round2 x - x) <= 1 / 200.
Proof.
  pose proof (Rabs_bounds _ _ (round_half_even_close (x * 100))) as H.
  unfold py_round2.
  set (r := IZR (round_half_even (x * 100))) in *.
  apply Rabs_le; split; unfold Rdiv in *; lra.
Qed.

(** The match score is 100 times the cosine of the two TF-IDF rows,
    rounded to two decimals: it is within 0.005 of the exact value. *)
Theorem lexical_score_rounding (a b : string) (s : R) :
  lexical_score a b = Some s ->
  exists r1 r2, tfidf_fit_transform a b = Some (r1, r2) /\
                Rabs (s - cosine_similarity r1 r2 * 100) <= 1 / 200.
Proof.
  unfold lexical_score; destruct (tfidf_fit_transform a b) as [[r1 r2]|]; [|discriminate].
  intros H; injection H as <-; exists r1, r2; split; [reflexivity|].
  apply py_round2_close.
Qed.

Lemma lexical_score_rounding_witness :
  exists s, lexical_score "python developer" "python engineer" = Some s /\
    exists r1 r2, tfidf_fit_transform "python developer" "python engineer" = Some (r1, r2) /\
                  Rabs (s - cosine_similarity r1 r2 * 100) <= 1 / 200.
Proof.
  assert (Hok : match lexical_score "python developer" "python engineer" with
                | Some _ => true | None => false end = true) by (vm_compute; reflexivity).
  destruct (lexical_score "python developer" "python engineer") as [s|] eqn:E; [|discriminate Hok].
  exists s; split; [reflexivity|].
  exact (lexical_score_rounding _ _ s E).
Defined.

Lemma find_words_sep (c : ascii) (s1 s2 : string) (cur : list ascii) :
  is_word_char c = false ->
  find_words (s1 ++ String c s2) cur = (find_words s1 cur ++ find_words s2 [])%list.
Proof.
  intros Hc; revert cur; induction s1 as [|c' s1 IH]; intros cur; simpl.
  - rewrite Hc; reflexivity.
  - destruct (is_word_char c'); [apply IH|rewrite IH, app_assoc; reflexivity].
Qed.

Lemma analyze_doc_repeat (a : string) :
  analyze_doc (a ++ " " ++ a) = (analyze_doc a ++ analyze_doc a)%list.
Proof.
  unfold analyze_doc; rewrite lower_app.
  change (lower (" " ++ a)) with (String (lower_char " ") (lower a)).
  change (lower_char " ") with " "%char.
  apply find_words_sep; reflexivity.
Qed.

Lemma mem_app_self (t : string) (l : list string) : mem t (l ++ l) = mem t l.
Proof. unfold mem; rewrite existsb_app; destruct (existsb _ l); reflexivity. Qed.

Lemma tfidf_weights_double (idfs : list R) (tc : list nat) :
  tfidf_weights idfs (map (Nat.mul 2) tc) = map (Rmult 2) (tfidf_weights idfs tc).
Proof.
  unfold tfidf_weights; revert idfs; induction tc as [|c tc IH]; intros [|w idfs];
    cbn [map combine]; try reflexivity.
  rewrite IH, mult_INR; simpl INR; f_equal; ring.
Qed.

Lemma sum_sq_double (v : list R) : sum_sq (map (Rmult 2) v) = 4 * sum_sq v.
Proof. induction v as [|x v IH]; simpl; [ring|]; rewrite IH; ring. Qed.

Lemma sum_sq_zero_double (v : list R) : sum_sq v = 0 -> map (Rmult 2) v = v.
Proof.
  induction v as [|x v IH]; simpl; intros H; [reflexivity|].
  pose proof (sum_sq_nonneg v); pose proof (Rle_0_sqr x); unfold Rsqr in *.
  assert (Hx : x * x = 0) by lra.
  apply Rmult_integral in Hx as [Hx|Hx]; subst x; rewrite IH by lra; f_equal; ring.
Qed.

Lemma l2_normalize_double (v : list R) : l2_normalize (map (Rmult 2) v) = l2_normalize v.
Proof.
  unfold l2_normalize; rewrite sum_sq_double.
  pose proof (sum_sq_nonneg v) as Hnn.
  rewrite sqrt_mult_alt by lra.
  replace (sqrt 4) with 2 by (replace 4 with (2 * 2) by ring; rewrite sqrt_square; lra).
  destruct (Req_EM_T (sqrt (sum_sq v)) 0) as [E|E].
  - destruct (Req_EM_T (2 * sqrt (sum_sq v)) 0) as [_|E']; [|lra].
    apply sum_sq_zero_double; apply sqrt_eq_0; assumption.
  - destruct (Req_EM_T (2 * sqrt (sum_sq v)) 0) as [E'|_]; [lra|].
    rewrite map_map; apply map_ext; intros x; field; exact E.
Qed.

(** Repeating the normalized resume (joined to itself by a space) does not
    change the match score: TF-IDF rows are length-normalized, so only the
    proportions of the terms count. *)
Theorem lexical_score_repeat_resume (a b : string) :
  lexical_score (a ++ " " ++ a) b = lexical_score a b.
Proof.
  assert (Hv : fit_vocabulary [a ++ " " ++ a; b] = fit_vocabulary [a; b]).
  { apply fit_vocabulary_ext; intros x; simpl; rewrite analyze_doc_repeat, !in_app_iff; tauto. }
  assert (Hdf : forall v, doc_freqs v [a ++ " " ++ a; b] = doc_freqs v [a; b]).
  { intros v; unfold doc_freqs; apply map_ext; intros t; simpl.
    rewrite analyze_doc_repeat, mem_app_self.
    destruct (mem t (analyze_doc a)), (mem t (analyze_doc b)); reflexivity. }
  assert (Htc : forall v, term_counts v (a ++ " " ++ a) = map (Nat.mul 2) (term_counts v a)).
  { intros v; unfold term_counts; rewrite map_map; apply map_ext; intros t.
    rewrite analyze_doc_repeat; unfold count_str; rewrite filter_app, length_app; lia. }
  unfold lexical_score, tfidf_fit_transform; rewrite Hv.
  destruct (fit_vocabulary [a; b]) as [v|]; [|reflexivity].
  rewrite Hdf, Htc, tfidf_weights_double, l2_normalize_double; reflexivity.
Qed.

(** The TF-IDF step of the lexical score fails (sklearn raises on an
    empty vocabulary) exactly when neither normalized document contains a
    run of two or more word characters. *)
Theorem lexical_score_None (a b : string) :
  lexical_score a b = None <-> analyze_doc a = [] /\ analyze_doc b = [].
Proof.
  unfold lexical_score, tfidf_fit_transform.
  destruct (fit_vocabulary [a; b]) as [v|] eqn:E.
  - split; [discriminate|]; intros [Ha Hb].
    assert (N : fit_vocabulary [a; b] = None) by (apply fit_vocabulary_None; simpl; rewrite Ha, Hb; reflexivity).
    congruence.
  - split; [intros _|reflexivity].
    apply fit_vocabulary_None in E; simpl in E; rewrite app_nil_r in E.
    apply app_eq_nil in E; exact E.
Qed.

Close Scope R_scope.
